(** * Music recommender API server: log buffer and request handlers

    A shallow embedding of [api_server.py]: the bounded log buffer
    ([logs], [add_log], [get_logs]), the [/logs] and [/logs/clear] handlers
    and the [/recommend] handler with its collaborators (memory store,
    perception layer, MCP tool session, decision maker) taken as an
    environment of fallible operations. *)

From Stdlib Require Import Ascii String DecimalString.
From Stdlib Require Import List ZArith Lia Bool.
From Stdlib Require Import Floats.SpecFloat.
Import ListNotations.

Local Open Scope Z_scope.

(* ===================================================================== *)
(** ** Python text: [str] as a sequence of Unicode code points *)
(* ===================================================================== *)

Module PyStr.

Definition char := N.
Definition str := list char.

(** An ASCII literal of the source, as code points. *)
Definition lit (s : string) : str :=
  map N_of_ascii (list_ascii_of_string s).

(** [ch.isspace()] for a [str] character: the code points CPython lists in
    [_PyUnicode_IsWhitespace]. [str.strip()] and [str.split()] without
    arguments both use it. *)
Definition is_space (c : char) : bool :=
  ((0x09 <=? c) && (c <=? 0x0D) ||
   (0x1C <=? c) && (c <=? 0x20) ||
   (c =? 0x85) || (c =? 0xA0) || (c =? 0x1680) ||
   (0x2000 <=? c) && (c <=? 0x200A) ||
   (c =? 0x2028) || (c =? 0x2029) || (c =? 0x202F) ||
   (c =? 0x205F) || (c =? 0x3000))%N.

Definition comma : char := 0x2C%N.

Fixpoint lstrip (s : str) : str :=
  match s with
  | [] => []
  | c :: s' => if is_space c then lstrip s' else s
  end.

Definition rstrip (s : str) : str := rev (lstrip (rev s)).

(** [s.strip()] *)
Definition strip (s : str) : str := rstrip (lstrip s).

(** Truth value of a [str]: non-empty. *)
Definition truthy (s : str) : bool :=
  match s with [] => false | _ => true end.

(** [c in s] for a one-character [c]. *)
Definition contains (c : char) (s : str) : bool :=
  existsb (N.eqb c) s.

(** [s.split(c)] for a one-character separator: every occurrence of [c]
    cuts, empty pieces are kept, and the empty string gives one empty
    piece. *)
Fixpoint split_char (c : char) (s : str) : list str :=
  match s with
  | [] => [[]]
  | x :: s' =>
      if (x =? c)%N then [] :: split_char c s'
      else match split_char c s' with
           | p :: ps => (x :: p) :: ps
           | [] => [[x]]
           end
  end.

(** [s.split()]: maximal runs of non-whitespace characters, in order. *)
Fixpoint split_ws (s : str) : list str :=
  match s with
  | [] => []
  | x :: s' =>
      if is_space x then split_ws s'
      else match s' with
           | [] => [[x]]
           | y :: _ =>
               if is_space y then [x] :: split_ws s'
               else match split_ws s' with
                    | p :: ps => (x :: p) :: ps
                    | [] => [[x]]
                    end
           end
  end.

(** [sep.join(parts)] *)
Fixpoint join (sep : str) (parts : list str) : str :=
  match parts with
  | [] => []
  | [p] => p
  | p :: ps => p ++ sep ++ join sep ps
  end.

(** Decimal text of a natural number, as [str(n)] or [{n}] in an f-string. *)
Definition of_nat (n : nat) : str :=
  lit (NilEmpty.string_of_uint (Nat.to_uint n)).

(** Python slices with one bound on a list: [l[start:]] and [l[:stop]].
    A negative bound counts from the end, and both are clamped to
    [0 .. len(l)]. *)
Definition clamp_index (i : Z) (n : nat) : nat :=
  if i <? 0 then Z.to_nat (Z.max 0 (i + Z.of_nat n))
  else Z.to_nat (Z.min i (Z.of_nat n)).

Definition slice_from {A : Type} (start : Z) (l : list A) : list A :=
  skipn (clamp_index start (length l)) l.

Definition slice_to {A : Type} (stop : Z) (l : list A) : list A :=
  firstn (clamp_index stop (length l)) l.

(** A lone surrogate: a code point of [0xD800 .. 0xDFFF]. A Python [str]
    can hold one (the JSON escape [\ud800] decodes to it); UTF-8 has no
    encoding for it. *)
Definition is_surrogate (c : char) : bool :=
  ((0xD800 <=? c) && (c <=? 0xDFFF))%N.

(** [s.encode('utf-8')] succeeds. *)
Definition encodable (s : str) : bool :=
  forallb (fun c => negb (is_surrogate c)) s.

(** The length of the run of surrogates [s] begins with. *)
Fixpoint surrogate_run (s : str) : nat :=
  match s with
  | c :: s' => if is_surrogate c then S (surrogate_run s') else 0
  | [] => 0
  end.

(** The first surrogate of [s], its position counted from [pos], and the
    length of the run it starts. *)
Fixpoint first_surrogate (pos : nat) (s : str) : option (nat * char * nat) :=
  match s with
  | [] => None
  | c :: s' =>
      if is_surrogate c then Some (pos, c, S (surrogate_run s'))
      else first_surrogate (S pos) s'
  end.

(** [%04x] of a code point below [0x10000], and [%d] of a position. *)
Definition hex_digit (n : N) : string :=
  match String.get (N.to_nat (n mod 16)) "0123456789abcdef" with
  | Some a => String a EmptyString
  | None => EmptyString
  end.

Definition hex4 (c : char) : string :=
  (hex_digit (c / 4096) ++ hex_digit (c / 256) ++ hex_digit (c / 16)
   ++ hex_digit c)%string.

Definition dec (n : nat) : string :=
  NilEmpty.string_of_uint (Nat.to_uint n).

End PyStr.

Import PyStr.

(** An ASCII literal holds no surrogate. *)
Lemma encodable_lit (s : string) : encodable (lit s) = true.
Proof.
  unfold encodable, lit. apply forallb_forall. intros c Hc.
  apply in_map_iff in Hc as (a & <- & _).
  pose proof (N_ascii_bounded a) as Hb. unfold is_surrogate.
  destruct (N.leb_spec 0xD800 (N_of_ascii a)) as [Hle | _];
    [lia | reflexivity].
Qed.

(** Text that holds no lone surrogate. What the interpreter and the
    libraries produce themselves is of this kind: the clock's [strftime],
    [repr] and [json.dumps] (which escape a surrogate), the text of an
    exception (which quotes data through [repr]), and the text an MCP
    session delivers (decoded from UTF-8 and validated by the client).
    What [json.loads] decodes is not: a string of a request body, of a
    decision or of a parsed tool answer stays a [str]. *)
Record text : Type := { chars : str; chars_ok : encodable chars = true }.

(** An ASCII literal of the source, as text. *)
Definition txt (s : string) : text :=
  {| chars := lit s; chars_ok := encodable_lit s |}.

(* ===================================================================== *)
(** ** Python values that travel as JSON, and the exceptions of built-ins *)
(* ===================================================================== *)

(** The values [json.loads] produces and [jsonify] accepts. A [JObj] is a
    [dict] in insertion order; its keys are distinct, so a lookup takes the
    first binding. *)
#[local] Unset Elimination Schemes.
Inductive json : Type :=
| JNull
| JBool (b : bool)
| JInt (z : Z)
| JFloat (f : spec_float)
| JStr (s : str)
| JArr (items : list json)
| JObj (fields : list (str * json)).
#[local] Set Elimination Schemes.

Definition dict := list (str * json).

Fixpoint str_eqb (a b : str) : bool :=
  match a, b with
  | [], [] => true
  | x :: a', y :: b' => (x =? y)%N && str_eqb a' b'
  | _, _ => false
  end.

Fixpoint lookup (key : str) (d : dict) : option json :=
  match d with
  | [] => None
  | (k, v) :: d' => if str_eqb key k then Some v else lookup key d'
  end.

Definition type_name (v : json) : string :=
  match v with
  | JNull => "NoneType"
  | JBool _ => "bool"
  | JInt _ => "int"
  | JFloat _ => "float"
  | JStr _ => "str"
  | JArr _ => "list"
  | JObj _ => "dict"
  end.

(** [bool(v)] *)
Definition py_truthy (v : json) : bool :=
  match v with
  | JNull => false
  | JBool b => b
  | JInt z => negb (z =? 0)
  | JFloat (S754_zero _) => false
  | JFloat _ => true
  | JStr s => truthy s
  | JArr l => match l with [] => false | _ => true end
  | JObj d => match d with [] => false | _ => true end
  end.

Definition is_dict (v : json) : bool :=
  match v with JObj _ => true | _ => false end.

(** Exception classes the handler tells apart, and the rest. Every one is a
    subclass of [Exception]; interpreter-level signals ([KeyboardInterrupt],
    [SystemExit]) are outside the model. *)
Inductive ExcClass : Type :=
| JSONDecodeError
| AttributeError
| KeyError
| TypeError
| IndexError
| UnicodeEncodeError
| OtherError (name : str).

(** An exception instance; [exc_msg] is what [str(e)] gives, a text the
    console can always take. *)
Record Exn : Type := { exc_class : ExcClass; exc_msg : text }.

Inductive Outcome (A : Type) : Type :=
| Ok (a : A)
| Raise (e : Exn).
Arguments Ok {A} a.
Arguments Raise {A} e.

Definition attribute_error (v : json) (attr : string) : Exn :=
  {| exc_class := AttributeError;
     exc_msg := txt ("'" ++ type_name v ++ "' object has no attribute '"
                     ++ attr ++ "'")%string |}.

Definition not_subscriptable (v : json) : Exn :=
  {| exc_class := TypeError;
     exc_msg := txt ("'" ++ type_name v
                     ++ "' object is not subscriptable")%string |}.

(** What a strict UTF-8 encoder raises on the text [s]: it names the first
    surrogate and its position, or the positions of the run of surrogates
    that starts there. *)
Definition unicode_encode_error (s : str) : Exn :=
  {| exc_class := UnicodeEncodeError;
     exc_msg :=
       txt (match first_surrogate 0 s with
            | Some (pos, c, 1%nat) =>
                "'utf-8' codec can't encode character '\u" ++ hex4 c
                ++ "' in position " ++ dec pos ++ ": surrogates not allowed"
            | Some (pos, _, run) =>
                "'utf-8' codec can't encode characters in position "
                ++ dec pos ++ "-" ++ dec (pos + run - 1)
                ++ ": surrogates not allowed"
            | None => ""
            end)%string |}.

(** [v.get(key, default)] *)
Definition py_get (v : json) (key : str) (default : json) : Outcome json :=
  match v with
  | JObj d => Ok (match lookup key d with Some x => x | None => default end)
  | _ => Raise (attribute_error v "get")
  end.

(** [v.strip()] *)
Definition py_strip (v : json) : Outcome str :=
  match v with
  | JStr s => Ok (strip s)
  | _ => Raise (attribute_error v "strip")
  end.

(** [v.items()] *)
Definition py_items (v : json) : Outcome dict :=
  match v with
  | JObj d => Ok d
  | _ => Raise (attribute_error v "items")
  end.

(** [v[key]] for one of the literal string keys of the source. *)
Definition py_subscript (v : json) (key : string) : Outcome json :=
  match v with
  | JObj d =>
      match lookup (lit key) d with
      | Some x => Ok x
      | None => Raise {| exc_class := KeyError;
                         exc_msg := txt ("'" ++ key ++ "'")%string |}
      end
  | JArr _ =>
      Raise {| exc_class := TypeError;
               exc_msg := txt "list indices must be integers or slices, not str" |}
  | JStr _ =>
      Raise {| exc_class := TypeError;
               exc_msg := txt "string indices must be integers, not 'str'" |}
  | _ => Raise (not_subscriptable v)
  end.

(** [len(v)] *)
Definition py_len (v : json) : Outcome nat :=
  match v with
  | JStr s => Ok (length s)
  | JArr l => Ok (length l)
  | JObj d => Ok (length d)
  | _ => Raise {| exc_class := TypeError;
                  exc_msg := txt ("object of type '" ++ type_name v
                                  ++ "' has no len()")%string |}
  end.

(** [v[0]] *)
Definition py_first (v : json) : Outcome json :=
  match v with
  | JArr (x :: _) => Ok x
  | JArr [] => Raise {| exc_class := IndexError;
                        exc_msg := txt "list index out of range" |}
  | JStr (c :: _) => Ok (JStr [c])
  | JStr [] => Raise {| exc_class := IndexError;
                        exc_msg := txt "string index out of range" |}
  | JObj _ => Raise {| exc_class := KeyError; exc_msg := txt "0" |}
  | _ => Raise (not_subscriptable v)
  end.

(* ===================================================================== *)
(** ** The process state and the monad of handler code *)
(* ===================================================================== *)

Inductive Level : Type := INFO | WARNING | ERROR | SUCCESS.

Definition level_str (l : Level) : str :=
  match l with
  | INFO => lit "INFO"
  | WARNING => lit "WARNING"
  | ERROR => lit "ERROR"
  | SUCCESS => lit "SUCCESS"
  end.

Record LogEntry : Type := {
  timestamp : str;
  level : Level;
  message : str;
  data : dict
}.

(** What the MCP session hands back. *)
Record Tool : Type := {
  tool_name : str;
  tool_description : option str;
  inputSchema : dict
}.

Inductive ContentItem : Type :=
| TextContent (t : text)
| OtherContent (repr : text).

Record UserInput : Type := { model_dump_json : Outcome str }.

(** One invocation of a collaborator, with the arguments that vary. *)
Inductive Call : Type :=
| CallAddMemory (content : str) (tags : list str)
| CallPerceptionManager
| CallPerceiveUserInput (mood activity : str) (location : option (list str))
| CallPerceiveWithGemini (mood activity : str) (tags : list str)
                         (location : option str)
| CallStdioClient
| CallClientSession
| CallInitialize
| CallListTools
| CallCallTool (name arguments : json)
| CallGetDecisionMaker
| CallModelDumpJson
| CallMakeDecision (user_input : str) (available_tools : list str)
                   (tools_description : str).

(** The state a handler can touch: the module-level [logs] deque, the
    console (a UTF-8 stream), the number of clock readings taken, and the
    trace of
    collaborator invocations (which stands for all state the collaborators
    own). *)
Record World : Type := {
  logs : list LogEntry;
  stdout : list str;
  clock_reads : nat;
  calls : list Call
}.

(** The imported modules and the interpreter services the file relies on.
    A collaborator's outcome may depend on its arguments and on every
    invocation made before it. The clock's text, [repr] and [json.dumps]
    give text without surrogates; [json.loads] may give strings that hold
    one. *)
Record Env : Type := {
  now : nat -> text;
  py_repr : json -> text;
  json_dumps : option Z -> json -> text;
  json_loads : str -> Outcome json;
  memory_add_memory : list Call -> str -> list str -> Outcome json;
  PerceptionManager : list Call -> Outcome unit;
  perceive_user_input :
    list Call -> str -> str -> option (list str) -> Outcome UserInput;
  perceive_with_gemini :
    list Call -> str -> str -> list str -> option str -> Outcome json;
  stdio_client : list Call -> Outcome unit;
  ClientSession : list Call -> Outcome unit;
  session_initialize : list Call -> Outcome unit;
  session_list_tools : list Call -> Outcome (list Tool);
  session_call_tool : list Call -> json -> json -> Outcome (list ContentItem);
  get_decision_maker : list Call -> Outcome unit;
  make_decision : list Call -> str -> list str -> str -> Outcome json
}.

Definition M (A : Type) : Type := World -> Outcome A * World.

Definition ret {A : Type} (a : A) : M A := fun w => (Ok a, w).

Definition raise {A : Type} (e : Exn) : M A := fun w => (Raise e, w).

Definition bind {A B : Type} (m : M A) (k : A -> M B) : M B :=
  fun w =>
    match m w with
    | (Ok a, w') => k a w'
    | (Raise e, w') => (Raise e, w')
    end.

(** [try: m  except Exception as e: h e] *)
Definition try_except {A : Type} (m : M A) (h : Exn -> M A) : M A :=
  fun w =>
    match m w with
    | (Ok a, w') => (Ok a, w')
    | (Raise e, w') => h e w'
    end.

(** A pure built-in operation that may raise. *)
Definition lift {A : Type} (o : Outcome A) : M A := fun w => (o, w).

(** Invoking a collaborator: it sees the trace so far, and the invocation is
    recorded whether it returns or raises. *)
Definition invoke {A : Type} (c : Call) (f : list Call -> Outcome A) : M A :=
  fun w =>
    (f (calls w),
     {| logs := logs w; stdout := stdout w; clock_reads := clock_reads w;
        calls := calls w ++ [c] |}).

Declare Scope py_scope.
Delimit Scope py_scope with py.
Notation "x <- m ;; k" := (bind m (fun x => k))
  (at level 100, m at next level, right associativity) : py_scope.
Notation "m ;; k" := (bind m (fun _ => k))
  (at level 100, right associativity) : py_scope.
Local Open Scope py_scope.

(** The value an f-string or [str()] shows: a [str] as it is, anything else
    through the interpreter's own formatting. *)
Definition format_value (env : Env) (v : json) : str :=
  match v with
  | JStr s => s
  | _ => chars (py_repr env v)
  end.

(* ===================================================================== *)
(** ** The log buffer *)
(* ===================================================================== *)

(** [deque(maxlen=cap).append(x)]: the item goes to the right end and, when
    the deque is then over its bound, the leftmost item is dropped. *)
Definition deque_append {A : Type} (cap : nat) (x : A) (d : list A) : list A :=
  let d' := d ++ [x] in
  if (cap <? length d')%nat then tl d' else d'.

Definition maxlen : nat := 1000.

Section LogBuffer.

Variable env : Env.

(** [print(line)]: the line reaches the console, or the stream's encoder
    raises and nothing of it is written. *)
Definition print (line : str) : M unit :=
  fun w =>
    if encodable line then
      (Ok tt,
       {| logs := logs w; stdout := stdout w ++ [line];
          clock_reads := clock_reads w; calls := calls w |})
    else (Raise (unicode_encode_error line), w).

(** [add_log(level, message, data=None)]: the entry is in the buffer before
    the line is printed, so it stays there when [print] raises. *)
Definition add_log (lvl : Level) (msg : str) (dat : option dict) : M unit :=
  fun w =>
    let ts := slice_to (-3) (chars (now env (clock_reads w))) in
    let log_entry :=
      {| timestamp := ts; level := lvl; message := msg;
         data := match dat with Some d => d | None => [] end |} in
    print (lit "[" ++ ts ++ lit "] [" ++ level_str lvl ++ lit "] " ++ msg)
      {| logs := deque_append maxlen log_entry (logs w);
         stdout := stdout w;
         clock_reads := S (clock_reads w);
         calls := calls w |}.

(** [get_logs(limit)]: [list(logs)[-limit:]] *)
Definition get_logs (limit : Z) : M (list LogEntry) :=
  fun w => (Ok (slice_from (- limit) (logs w)), w).

End LogBuffer.

(* ===================================================================== *)
(** ** HTTP requests and responses *)
(* ===================================================================== *)

(** What a handler reads from Flask's [request]: the outcome of
    [request.json] (a raise when Flask rejects the body, [JNull] when it
    yields [None]) and the [limit] query argument after
    [request.args.get('limit', ..., type=int)] converted it ([None] when the
    argument is absent or is not an integer, so that the default applies). *)
Record Request : Type := {
  request_json : Outcome json;
  request_args_limit : option Z
}.

Record Response : Type := { status : Z; body : json }.

(** [jsonify(obj)] and [jsonify(obj), code] *)
Definition jsonify (fields : dict) : Response :=
  {| status := 200; body := JObj fields |}.

Definition jsonify_status (fields : dict) (code : Z) : Response :=
  {| status := code; body := JObj fields |}.

Definition entry_json (e : LogEntry) : json :=
  JObj [ (lit "timestamp", JStr (timestamp e));
         (lit "level", JStr (level_str (level e)));
         (lit "message", JStr (message e));
         (lit "data", JObj (data e)) ].

(** [jsonify({"error": str(e)}), 500] *)
Definition error_500 (e : Exn) : Response :=
  jsonify_status [ (lit "error", JStr (chars (exc_msg e))) ] 500.

(** Flask's own answer when an exception leaves a view function: status
    500 with an HTML page, and no JSON body. *)
Definition unhandled_500 : Response := {| status := 500; body := JNull |}.

(** A handler whose body sits in [try: ... except Exception as e: ...]:
    the body's response, or the response the [except] clause builds. *)
Definition try_return (m : M Response)
    (h : Exn -> World -> Response * World) (w : World) : Response * World :=
  match m w with
  | (Ok r, w') => (r, w')
  | (Raise e, w') => h e w'
  end.

Section Handlers.

Variable env : Env.

(** [GET /logs] *)
Definition get_logs_endpoint (req : Request) : World -> Response * World :=
  try_return
    (let limit := match request_args_limit req with
                  | Some n => n
                  | None => 100
                  end in
     log_entries <- get_logs limit ;;
     ret (jsonify [ (lit "logs", JArr (map entry_json log_entries));
                    (lit "count", JInt (Z.of_nat (length log_entries))) ]))
    (fun e w => (error_500 e, w)).

(** [POST /logs/clear] *)
Definition clear_logs : World -> Response * World :=
  try_return
    ((fun w => (Ok tt, {| logs := []; stdout := stdout w;
                          clock_reads := clock_reads w;
                          calls := calls w |})) ;;
     add_log env INFO ([0x1F5D1; 0xFE0F]%N ++ lit " Logs cleared") None ;;
     ret (jsonify [ (lit "success", JBool true);
                    (lit "message", JStr (lit "Logs cleared")) ]))
    (fun e w => (error_500 e, w)).

(* --------------------------------------------------------------------- *)
(** *** [POST /recommend] *)

(** Lines 88-90: the tag tokens of the trimmed [tags] field. *)
Definition parse_tags (tags_raw : str) : list str :=
  if truthy tags_raw then
    map strip
      (filter (fun t => truthy (strip t))
         (if contains comma tags_raw then split_char comma tags_raw
          else split_ws tags_raw))
  else [].

(** Lines 75-79: the four text fields, each [data.get(key, '').strip()]. *)
Definition read_fields (req : Request) : M (str * str * str * str) :=
  data <- lift (request_json req) ;;
  mood_v <- lift (py_get data (lit "mood") (JStr [])) ;;
  mood <- lift (py_strip mood_v) ;;
  activity_v <- lift (py_get data (lit "activity") (JStr [])) ;;
  activity <- lift (py_strip activity_v) ;;
  location_v <- lift (py_get data (lit "location") (JStr [])) ;;
  current_loc <- lift (py_strip location_v) ;;
  tags_v <- lift (py_get data (lit "tags") (JStr [])) ;;
  tags_raw <- lift (py_strip tags_v) ;;
  ret (mood, activity, current_loc, tags_raw).

(** [run_async(coro)]: a fresh event loop drives the coroutine to its end;
    its result or its exception comes back to the caller. *)
Definition run_async {A : Type} (coro : M A) : M A := coro.

(** Lines 129-134 *)
Definition get_tools_list : M (list Tool) :=
  invoke CallStdioClient (stdio_client env) ;;
  invoke CallClientSession (ClientSession env) ;;
  invoke CallInitialize (session_initialize env) ;;
  tools <- invoke CallListTools (session_list_tools env) ;;
  ret tools.

(** Lines 182-192 *)
Definition call_tool_with_session (name arguments : json) : M text :=
  invoke CallStdioClient (stdio_client env) ;;
  invoke CallClientSession (ClientSession env) ;;
  invoke CallInitialize (session_initialize env) ;;
  content <- invoke (CallCallTool name arguments)
                    (fun h => session_call_tool env h name arguments) ;;
  ret (match content with
       | TextContent t :: _ => t
       | OtherContent repr :: _ => repr
       | [] => txt "[]"
       end).

(** Lines 149-151 *)
Fixpoint param_details (items : dict) : M (list str) :=
  match items with
  | [] => ret []
  | (param_name, param_info) :: rest =>
      param_type <- lift (py_get param_info (lit "type") (JStr (lit "unknown"))) ;;
      more <- param_details rest ;;
      ret ((param_name ++ lit ": " ++ format_value env param_type) :: more)
  end.

Definition show_description (d : option str) : str :=
  match d with Some s => s | None => lit "None" end.

(** Lines 141-160: the loop over [enumerate(tools)], from index [i]. *)
Fixpoint describe_tools (i : nat) (tools : list Tool)
    (tools_description_list : list str) : M (list str) :=
  match tools with
  | [] => ret tools_description_list
  | tool :: rest =>
      lines <-
        try_except
          (let params := inputSchema tool in
           let desc := show_description (tool_description tool) in
           let name := tool_name tool in
           params_str <-
             match lookup (lit "properties") params with
             | Some props =>
                 items <- lift (py_items props) ;;
                 details <- param_details items ;;
                 ret (join (lit ", ") details)
             | None => ret (lit "no parameters")
             end ;;
           ret (tools_description_list ++
                [of_nat (i + 1) ++ lit ". " ++ name ++ lit "(" ++ params_str
                 ++ lit ") - " ++ desc]))
          (fun e =>
             add_log env WARNING
               ([0x26A0; 0xFE0F]%N ++ lit " Error processing tool "
                ++ of_nat i ++ lit ": " ++ chars (exc_msg e)) None ;;
             ret (tools_description_list ++
                  [of_nat (i + 1) ++ lit ". Error processing tool"])) ;;
      describe_tools (S i) rest lines
  end.

(** Lines 92-195: everything between validation and the tool's answer.
    Gives [mem_id], [gem_perception], [reasoning] and the tool's text. *)
Definition recommend_steps (mood activity current_loc : str)
    (tags : list str) : M (json * json * json * text) :=
  add_log env INFO ([0x1F4BE]%N ++ lit " Storing inputs in memory...") None ;;
  let content :=
    lit "Mood: " ++ mood ++ lit "; Activity: " ++ activity ++ lit "; Tags: "
    ++ (match tags with [] => [] | _ => join (lit ", ") tags end) in
  mem_id <- invoke (CallAddMemory content tags)
                   (fun h => memory_add_memory env h content tags) ;;
  add_log env SUCCESS
    ([0x2705]%N ++ lit " Stored to short-term memory: "
     ++ format_value env mem_id) None ;;
  add_log env INFO ([0x1F9E0]%N ++ lit " Building perception layer...") None ;;
  invoke CallPerceptionManager (PerceptionManager env) ;;
  let location_tags := match tags with [] => None | _ => Some tags end in
  user_input <- invoke (CallPerceiveUserInput mood activity location_tags)
                  (fun h => perceive_user_input env h mood activity
                              location_tags) ;;
  add_log env INFO
    ([0x1F916]%N ++ lit " Calling Gemini Perception Layer...") None ;;
  let location_text :=
    if truthy current_loc then Some current_loc else None in
  gem_perception <-
    invoke (CallPerceiveWithGemini mood activity tags location_text)
      (fun h => perceive_with_gemini env h mood activity tags location_text) ;;
  add_log env SUCCESS
    ([0x2705]%N ++ lit " Gemini perception completed: "
     ++ chars (json_dumps env (Some 2) gem_perception)) None ;;
  add_log env INFO ([0x1F527]%N ++ lit " Getting MCP tools list...") None ;;
  tools <- run_async get_tools_list ;;
  add_log env SUCCESS
    ([0x2705]%N ++ lit " Found " ++ of_nat (length tools)
     ++ lit " available tools") None ;;
  tools_description_list <- describe_tools 0 tools [] ;;
  let tools_description := join [0x0A]%N tools_description_list in
  let available_tool_names := map tool_name tools in
  add_log env INFO
    ([0x1F4CB]%N ++ lit " Available tools: "
     ++ join (lit ", ") available_tool_names) None ;;
  add_log env INFO ([0x1F3AF]%N ++ lit " Calling Decision Maker...") None ;;
  invoke CallGetDecisionMaker (get_decision_maker env) ;;
  user_input_json <- invoke CallModelDumpJson
                       (fun _ => model_dump_json user_input) ;;
  decision <-
    invoke (CallMakeDecision user_input_json available_tool_names
              tools_description)
      (fun h => make_decision env h user_input_json available_tool_names
                  tools_description) ;;
  inner <- lift (py_subscript decision "decision") ;;
  name <- lift (py_subscript inner "tool_name") ;;
  inner <- lift (py_subscript decision "decision") ;;
  arguments <- lift (py_subscript inner "arguments") ;;
  inner <- lift (py_subscript decision "decision") ;;
  reasoning <- lift (py_subscript inner "reasoning") ;;
  add_log env SUCCESS
    ([0x2705]%N ++ lit " Decision made: Tool=" ++ format_value env name
     ++ lit ", Reasoning=" ++ format_value env reasoning) None ;;
  add_log env INFO
    ([0x2699; 0xFE0F]%N ++ lit " Calling tool: " ++ format_value env name
     ++ lit " with arguments: " ++ chars (json_dumps env None arguments))
    None ;;
  payload <- run_async (call_tool_with_session name arguments) ;;
  add_log env SUCCESS ([0x2705]%N ++ lit " Tool execution completed") None ;;
  ret (mem_id, gem_perception, reasoning, payload).

(** Lines 197-205: the tool's text parsed as JSON, or the empty list. *)
Definition parse_payload (payload : text) : M json :=
  try_except
    (lift (json_loads env (chars payload)))
    (fun e =>
       match exc_class e with
       | JSONDecodeError =>
           add_log env WARNING
             ([0x26A0; 0xFE0F]%N ++ lit " Failed to parse payload as JSON: "
              ++ chars payload) None ;;
           ret (JArr [])
       | _ =>
           add_log env WARNING
             ([0x26A0; 0xFE0F]%N ++ lit " Error parsing payload: "
              ++ chars (exc_msg e)) None ;;
           ret (JArr [])
       end).

(** Lines 207-209 *)
Definition wrap_dict (payload : json) : json :=
  if is_dict payload then JArr [payload] else payload.

(** Lines 211-218 *)
Definition log_payload (payload : json) : M unit :=
  nonempty <- (if py_truthy payload then
                 n <- lift (py_len payload) ;; ret (0 <? n)%nat
               else ret false) ;;
  if (nonempty : bool) then
    n <- lift (py_len payload) ;;
    add_log env SUCCESS
      ([0x1F3B6]%N ++ lit " Received " ++ of_nat n
       ++ lit " recommendation(s)") None ;;
    top <- lift (py_first payload) ;;
    if is_dict top then
      top <- lift (py_first payload) ;;
      song <- lift (py_get top (lit "song") (JStr (lit "Unknown"))) ;;
      top <- lift (py_first payload) ;;
      artist <- lift (py_get top (lit "artist") (JStr (lit "Unknown"))) ;;
      add_log env INFO
        ([0x1F3B5]%N ++ lit " Top recommendation: " ++ format_value env song
         ++ lit " by " ++ format_value env artist) None
    else ret tt
  else
    add_log env WARNING
      ([0x26A0; 0xFE0F]%N ++ lit " No recommendations received") None.

(** Lines 197-228: from the tool's text to the success response. *)
Definition recommend_respond (mem_id gem_perception reasoning : json)
    (payload : text) : M Response :=
  payload <- parse_payload payload ;;
  let payload := wrap_dict payload in
  log_payload payload ;;
  add_log env SUCCESS
    ([0x2705]%N ++ lit " Recommendation request completed successfully")
    None ;;
  ret (jsonify [ (lit "success", JBool true);
                 (lit "recommendations", payload);
                 (lit "reasoning", reasoning);
                 (lit "memory_id", mem_id);
                 (lit "perception", gem_perception) ]).

Definition validation_error : Response :=
  jsonify_status
    [ (lit "error", JStr (lit "Mood and activity are required.")) ] 400.

(** Lines 74-195: the body of the [try] up to the tool's answer. It ends
    either in the early [return] of the validation failure or with the
    values the rest needs: [mem_id], [gem_perception], [reasoning] and the
    tool's text. *)
Definition recommend_until_tool (req : Request)
    : M (Response + json * json * json * text) :=
  add_log env INFO
    ([0x1F3B5]%N ++ lit " New recommendation request received") None ;;
  fields <- read_fields req ;;
  let '(mood, activity, current_loc, tags_raw) := fields in
  add_log env INFO
    ([0x1F4DD]%N ++ lit " User Input - Mood: " ++ mood ++ lit ", Activity: "
     ++ activity ++ lit ", Location: " ++ current_loc ++ lit ", Tags: "
     ++ tags_raw) None ;;
  if negb (truthy mood) || negb (truthy activity) then
    add_log env ERROR
      ([0x274C]%N ++ lit " Validation failed: Mood and activity are required")
      None ;;
    ret (inl validation_error)
  else
    let tags := parse_tags tags_raw in
    r <- recommend_steps mood activity current_loc tags ;;
    ret (inr r).

(** Lines 74-228: the body of the [try]. *)
Definition recommend_try (req : Request) : M Response :=
  r <- recommend_until_tool req ;;
  match r with
  | inl response => ret response
  | inr (mem_id, gem_perception, reasoning, payload) =>
      recommend_respond mem_id gem_perception reasoning payload
  end.

(** [POST /recommend]. Nothing catches what the [except] clause itself
    raises: it would leave the view. *)
Definition recommend (req : Request) : World -> Response * World :=
  try_return (recommend_try req)
    (fun e w =>
       match add_log env ERROR
               ([0x274C]%N ++ lit " Exception occurred: "
                ++ chars (exc_msg e)) None w with
       | (Ok _, w') => (error_500 e, w')
       | (Raise _, w') => (unhandled_500, w')
       end).

End Handlers.

(* ===================================================================== *)
(** ** Vocabulary of the statements *)
(* ===================================================================== *)

(** The process right after the module is loaded. *)
Definition initial_world : World :=
  {| logs := []; stdout := []; clock_reads := 0; calls := [] |}.

(** The entry [add_log] builds at the [k]-th clock reading. *)
Definition mk_entry (env : Env) (k : nat) (lvl : Level) (msg : str)
    (dat : option dict) : LogEntry :=
  {| timestamp := slice_to (-3) (chars (now env k)); level := lvl;
     message := msg;
     data := match dat with Some d => d | None => [] end |}.

(** The state [add_log] leaves behind. *)
Definition logged (env : Env) (lvl : Level) (msg : str) (dat : option dict)
    (w : World) : World :=
  snd (add_log env lvl msg dat w).

(** A sequence of [add_log] calls, in order. *)
Fixpoint append_all (env : Env) (items : list (Level * str * option dict))
    (w : World) : World :=
  match items with
  | [] => w
  | (lvl, msg, dat) :: rest =>
      append_all env rest (snd (add_log env lvl msg dat w))
  end.

(** The entries those calls build when the first one takes clock reading
    [k]. *)
Fixpoint entries_from (env : Env) (k : nat)
    (items : list (Level * str * option dict)) : list LogEntry :=
  match items with
  | [] => []
  | (lvl, msg, dat) :: rest =>
      mk_entry env k lvl msg dat :: entries_from env (S k) rest
  end.

(** The last [k] elements of a list (all of it when it is shorter). *)
Definition lastn {A : Type} (k : nat) (l : list A) : list A :=
  skipn (length l - k) l.

(** Pushing entries one after the other into the bounded deque. *)
Definition push_all (es : list LogEntry) (d : list LogEntry) : list LogEntry :=
  fold_left (fun acc e => deque_append maxlen e acc) es d.

(** The text of a field of the request body: absent counts as empty. *)
Definition field_text (d : dict) (key : str) : str :=
  match lookup key d with
  | Some (JStr s) => strip s
  | _ => []
  end.

(** A field that is absent or holds text. *)
Definition field_is_text (d : dict) (key : str) : bool :=
  match lookup key d with
  | None | Some (JStr _) => true
  | Some _ => false
  end.

(** Every character of [s] is whitespace. *)
Definition blank (s : str) : Prop := Forall (fun c => is_space c = true) s.

(** No character of [s] is whitespace. *)
Definition solid (s : str) : Prop := Forall (fun c => is_space c = false) s.

(** A text that does not begin with whitespace. *)
Definition clean_start (s : str) : Prop :=
  match s with [] => True | c :: _ => is_space c = false end.

(** A text that does not end with whitespace. *)
Definition clean_end (s : str) : Prop := clean_start (rev s).

(** Every character of [s] is whitespace, as a test. *)
Definition is_blank (s : str) : bool := forallb is_space s.

(** [t] is [p] without the whitespace at its two ends. *)
Definition trimmed_of (p t : str) : Prop :=
  exists sp1 sp2,
    blank sp1 /\ blank sp2 /\ p = sp1 ++ t ++ sp2 /\
    clean_start t /\ clean_end t.

(** [ps] lists the maximal whitespace-free runs of a text, in order: the
    text is whitespace, then a non-empty run without whitespace that ends
    at the end of the text or right before whitespace, then the rest. *)
Inductive ws_split : str -> list str -> Prop :=
| ws_done sp : blank sp -> ws_split sp []
| ws_piece sp p rest ps :
    blank sp -> solid p -> p <> [] ->
    match rest with [] => True | c :: _ => is_space c = true end ->
    ws_split rest ps ->
    ws_split (sp ++ p ++ rest) (p :: ps).

(** The tokens as the specification words them: the pieces between commas
    when there is a comma, the pieces between whitespace otherwise; each
    trimmed, the empty ones dropped, the order kept. *)
Definition tokens_spec (s : str) : list str :=
  filter truthy
    (map strip
       (if contains comma s then split_char comma s else split_ws s)).

(** The five fields of a success response. *)
Definition success_body (payload reasoning mem_id gem_perception : json) : json :=
  JObj [ (lit "success", JBool true);
         (lit "recommendations", payload);
         (lit "reasoning", reasoning);
         (lit "memory_id", mem_id);
         (lit "perception", gem_perception) ].




(** The message of the top-level [except] clause (line 231). *)
Definition exception_message (e : Exn) : str :=
  [0x274C]%N ++ lit " Exception occurred: " ++ chars (exc_msg e).

(** The three entries every request logs up to a failed validation. *)
Definition validation_logs (mood activity current_loc tags_raw : str)
    : list (Level * str * option dict) :=
  [ (INFO, [0x1F3B5]%N ++ lit " New recommendation request received", None);
    (INFO,
     [0x1F4DD]%N ++ lit " User Input - Mood: " ++ mood ++ lit ", Activity: "
     ++ activity ++ lit ", Location: " ++ current_loc ++ lit ", Tags: "
     ++ tags_raw, None);
    (ERROR,
     [0x274C]%N ++ lit " Validation failed: Mood and activity are required",
     None) ].

(** One request served by the process. *)
Inductive serves (env : Env) : World -> World -> Prop :=
| serves_recommend req w : serves env w (snd (recommend env req w))
| serves_logs req w : serves env w (snd (get_logs_endpoint req w))
| serves_clear w : serves env w (snd (clear_logs env w)).

(** The states the process can be in after any number of requests. *)
Inductive reachable (env : Env) : World -> Prop :=
| reachable_start : reachable env initial_world
| reachable_next w w' :
    reachable env w -> serves env w w' -> reachable env w'.

(** A computation that leaves the buffer within its bound. *)
Definition keeps_bound {A : Type} (m : M A) : Prop :=
  forall w, (length (logs w) <= maxlen)%nat ->
            (length (logs (snd (m w))) <= maxlen)%nat.

(* --------------------------------------------------------------------- *)
(** *** A concrete environment for examples *)

Definition quoted (s : string) : str := [0x22]%N ++ lit s ++ [0x22]%N.

(** The text [{"song": "X", "artist": "Y"}] and the value it denotes. *)
Definition song_text : str :=
  lit "{" ++ quoted "song" ++ lit ": " ++ quoted "X" ++ lit ", "
  ++ quoted "artist" ++ lit ": " ++ quoted "Y" ++ lit "}".

(** The same text as the MCP session delivers it. *)
Definition song_payload : text :=
  {| chars := song_text; chars_ok := eq_refl |}.

Definition song_list_payload : text :=
  {| chars := lit "[" ++ song_text ++ lit "]"; chars_ok := eq_refl |}.

Definition song_value : json :=
  JObj [ (lit "song", JStr (lit "X")); (lit "artist", JStr (lit "Y")) ].

(** The text [{"song": "\ud83d"}], plain ASCII, and the value it denotes:
    a song whose name is one lone surrogate. *)
Definition lone_song_text : str :=
  lit "{" ++ quoted "song" ++ lit ": " ++ quoted "\ud83d" ++ lit "}".


Definition lone_song_value : json := JObj [ (lit "song", JStr [0xD83D]%N) ].

Definition demo_decision : json :=
  JObj [ (lit "decision",
          JObj [ (lit "tool_name", JStr (lit "get_song"));
                 (lit "arguments", JObj [ (lit "mood", JStr (lit "happy")) ]);
                 (lit "reasoning", JStr (lit "upbeat mood")) ]) ].

Definition demo_tool : Tool :=
  {| tool_name := lit "get_song";
     tool_description := Some (lit "Pick a song");
     inputSchema :=
       [ (lit "properties",
          JObj [ (lit "mood", JObj [ (lit "type", JStr (lit "string")) ]) ]) ] |}.

Definition decode_error : Exn :=
  {| exc_class := JSONDecodeError;
     exc_msg := txt "Expecting value: line 1 column 1 (char 0)" |}.

(** An environment whose memory store, subprocess spawn, decision maker and
    tool answer as given, and whose other collaborators succeed. A JSON
    text is understood when it is [song_text], the list of it,
    [lone_song_text], [[]] or [5]. *)
Definition demo_env_gen (mem : Outcome json) (spawn : Outcome unit)
    (decision : Outcome json) (tool_outcome : Outcome (list ContentItem))
    : Env :=
  {| now := fun _ => txt "2026-01-01 12:00:00.123456";
     py_repr := fun _ => txt "<value>";
     json_dumps := fun _ _ => txt "<json>";
     json_loads := fun s =>
       if str_eqb s song_text then Ok song_value
       else if str_eqb s (lit "[" ++ song_text ++ lit "]")
            then Ok (JArr [song_value])
       else if str_eqb s lone_song_text then Ok lone_song_value
       else if str_eqb s (lit "[]") then Ok (JArr [])
       else if str_eqb s (lit "5") then Ok (JInt 5)
       else Raise decode_error;
     memory_add_memory := fun _ _ _ => mem;
     PerceptionManager := fun _ => Ok tt;
     perceive_user_input := fun _ _ _ _ =>
       Ok {| model_dump_json := Ok (lit "{}") |};
     perceive_with_gemini := fun _ _ _ _ _ => Ok (JObj []);
     stdio_client := fun _ => spawn;
     ClientSession := fun _ => Ok tt;
     session_initialize := fun _ => Ok tt;
     session_list_tools := fun _ => Ok [demo_tool];
     session_call_tool := fun _ _ _ => tool_outcome;
     get_decision_maker := fun _ => Ok tt;
     make_decision := fun _ _ _ _ => decision |}.

(** Every collaborator answers; the tool answers [tool_outcome]. *)
Definition demo_env (tool_outcome : Outcome (list ContentItem)) : Env :=
  demo_env_gen (Ok (JStr (lit "mem-1"))) (Ok tt) (Ok demo_decision)
    tool_outcome.

(** What the operating system raises when the [python] command is missing. *)
Definition spawn_error : Exn :=
  {| exc_class := OtherError (lit "FileNotFoundError");
     exc_msg := txt "[Errno 2] No such file or directory: 'python'" |}.

(** What the MCP client raises when the server rejects a call. *)
Definition tool_error : Exn :=
  {| exc_class := OtherError (lit "McpError");
     exc_msg := txt "Unknown tool: get_song" |}.

Definition body_of (fields : list (string * json)) : Outcome json :=
  Ok (JObj (map (fun kv => (lit (fst kv), snd kv)) fields)).

(** The request of the specification's first scenario. *)
Definition happy_request : Request :=
  {| request_json :=
       body_of [ ("mood"%string, JStr (lit "happy"));
                 ("activity"%string, JStr (lit "running"));
                 ("tags"%string, JStr (lit "pop, upbeat")) ];
     request_args_limit := None |}.

(** A request with an empty mood and a number in the [tags] field. *)
Definition numeric_tags_request : Request :=
  {| request_json :=
       body_of [ ("mood"%string, JStr []);
                 ("activity"%string, JStr (lit "running"));
                 ("tags"%string, JInt 5) ];
     request_args_limit := None |}.

(** The request of the specification's second scenario. *)
Definition empty_mood_request : Request :=
  {| request_json :=
       body_of [ ("mood"%string, JStr []);
                 ("activity"%string, JStr (lit "running")) ];
     request_args_limit := None |}.

(** A thousand log calls, enough to fill the buffer. *)
Definition thousand_ticks : list (Level * str * option dict) :=
  repeat (INFO, lit "tick", None) 1000.

(* ===================================================================== *)
(** ** The remaining handlers, and more vocabulary *)
(* ===================================================================== *)

(** Lines 50-55 and 65-68: [GET /health], given what [os.getenv] found.
    The answer only says whether the variable is set. *)
Definition health (api_key : option str) : Response :=
  jsonify [ (lit "status", JStr (lit "healthy"));
            (lit "api_key_set",
             JBool (match api_key with Some _ => true | None => false end)) ].

(** A record of the memory store, as far as the handler looks at it. *)
Record MemoryItem : Type := { model_dump : Outcome json }.

(** [[m.model_dump() for m in mems]] *)
Fixpoint dump_all (mems : list MemoryItem) : M (list json) :=
  match mems with
  | [] => ret []
  | m :: rest =>
      d <- lift (model_dump m) ;;
      ds <- dump_all rest ;;
      ret (d :: ds)
  end.

(** Lines 234-242: [GET /memory/recent]. The query of the memory store,
    [memory.get_memories(memory_type=CONVERSATION, limit=limit)], is a
    computation of the store's own. *)
Definition get_recent_memories (get_memories : Z -> M (list MemoryItem))
    (req : Request) : World -> Response * World :=
  try_return
    (let limit := match request_args_limit req with
                  | Some n => n
                  | None => 5
                  end in
     mems <- get_memories limit ;;
     dumped <- dump_all mems ;;
     ret (jsonify [ (lit "memories", JArr dumped) ]))
    (fun e w => (error_500 e, w)).

(** The line [add_log] prints for an entry. *)
Definition console_line (e : LogEntry) : str :=
  lit "[" ++ timestamp e ++ lit "] [" ++ level_str (level e) ++ lit "] "
  ++ message e.

(** [w'] comes from [w] by printing lines, reading the clock at least once
    per line, and invoking collaborators; nothing printed or invoked before
    is lost. *)
Definition extends (w w' : World) : Prop :=
  (exists out, stdout w' = stdout w ++ out /\
               (clock_reads w + length out <= clock_reads w')%nat) /\
  (exists cs, calls w' = calls w ++ cs).

(** A computation that only ever extends the world. *)
Definition grows {A : Type} (m : M A) : Prop :=
  forall w, extends w (snd (m w)).

(** A tag as [parse_tags] gives them: non-empty, trimmed, without comma. *)
Definition tag (t : str) : Prop :=
  t <> [] /\ strip t = t /\ contains comma t = false.

(** Every character of [s] is whitespace or a comma. *)
Definition blank_or_comma (s : str) : Prop :=
  Forall (fun c => is_space c = true \/ c = comma) s.

(** What [call_tool_with_session] makes of the content of a result. *)
Definition first_text (content : list ContentItem) : text :=
  match content with
  | TextContent t :: _ => t
  | OtherContent repr :: _ => repr
  | [] => txt "[]"
  end.

(** Lines 149-151 as a value: the parameter texts of a property list, or
    the exception of the first [param_info] that has no [get]. *)
Fixpoint param_texts (env : Env) (items : dict) : Outcome (list str) :=
  match items with
  | [] => Ok []
  | (param_name, param_info) :: rest =>
      match py_get param_info (lit "type") (JStr (lit "unknown")) with
      | Raise e => Raise e
      | Ok param_type =>
          match param_texts env rest with
          | Raise e => Raise e
          | Ok more =>
              Ok ((param_name ++ lit ": " ++ format_value env param_type)
                  :: more)
          end
      end
  end.

(** Lines 147-154 as a value: the text between the parentheses of a tool's
    line, or the exception that reading its schema raises. *)
Definition params_text (env : Env) (tool : Tool) : Outcome str :=
  match lookup (lit "properties") (inputSchema tool) with
  | None => Ok (lit "no parameters")
  | Some props =>
      match py_items props with
      | Raise e => Raise e
      | Ok items =>
          match param_texts env items with
          | Raise e => Raise e
          | Ok details => Ok (join (lit ", ") details)
          end
      end
  end.

(** The line of the tool at index [i]: line 156, or line 160 when its
    schema cannot be read. *)
Definition tool_line (env : Env) (i : nat) (tool : Tool) : str :=
  match params_text env tool with
  | Ok params_str =>
      of_nat (i + 1) ++ lit ". " ++ tool_name tool ++ lit "(" ++ params_str
      ++ lit ") - " ++ show_description (tool_description tool)
  | Raise _ => of_nat (i + 1) ++ lit ". Error processing tool"
  end.

Fixpoint tool_lines (env : Env) (i : nat) (tools : list Tool) : list str :=
  match tools with
  | [] => []
  | tool :: rest => tool_line env i tool :: tool_lines env (S i) rest
  end.

(** The message of line 159. *)
Definition tool_warning_text (i : nat) (e : Exn) : str :=
  [0x26A0; 0xFE0F]%N ++ lit " Error processing tool " ++ of_nat i
  ++ lit ": " ++ chars (exc_msg e).

(** What the loop logs: one WARNING per tool whose schema cannot be read. *)
Fixpoint tool_warnings (env : Env) (i : nat) (tools : list Tool)
    : list (Level * str * option dict) :=
  match tools with
  | [] => []
  | tool :: rest =>
      match params_text env tool with
      | Ok _ => tool_warnings env (S i) rest
      | Raise e =>
          (WARNING, tool_warning_text i e, None)
          :: tool_warnings env (S i) rest
      end
  end.

(** A tool whose schema cannot be read. *)
Definition unreadable (env : Env) (tool : Tool) : bool :=
  match params_text env tool with Ok _ => false | Raise _ => true end.

(** The collaborator invocations of one session, around its one request. *)
Definition session_calls (request : Call) : list Call :=
  [CallStdioClient; CallClientSession; CallInitialize; request].

(** The text line 95 stores in the memory record. *)
Definition memory_content (mood activity : str) (tags : list str) : str :=
  lit "Mood: " ++ mood ++ lit "; Activity: " ++ activity ++ lit "; Tags: "
  ++ join (lit ", ") tags.

(** The collaborator invocations of a request that gets as far as the
    tool's answer, in their order. *)
Definition full_trace (mood activity current_loc : str) (tags : list str)
    (user_input_json : str) (tools : list Tool) (tools_description : str)
    (name arguments : json) : list Call :=
  [ CallAddMemory (memory_content mood activity tags) tags;
    CallPerceptionManager;
    CallPerceiveUserInput mood activity
      (match tags with [] => None | _ => Some tags end);
    CallPerceiveWithGemini mood activity tags
      (if truthy current_loc then Some current_loc else None) ]
  ++ session_calls CallListTools
  ++ [ CallGetDecisionMaker; CallModelDumpJson;
       CallMakeDecision user_input_json (map tool_name tools)
         tools_description ]
  ++ session_calls (CallCallTool name arguments).

(* ===================================================================== *)
(** ** The log buffer: bound, eviction order, reading *)
(* ===================================================================== *)

Section DequeFacts.

Context {A : Type}.
Implicit Types (d l : list A) (x : A) (cap : nat).

Lemma deque_append_length cap x d :
  (length d <= cap)%nat -> (length (deque_append cap x d) <= cap)%nat.
Proof.
  intros Hd. unfold deque_append.
  destruct (Nat.ltb_spec cap (length (d ++ [x]))) as [Hlt | Hge].
  - destruct d as [| y d']; simpl in *.
    + lia.
    + rewrite length_app in *. simpl in *. lia.
  - exact Hge.
Qed.

Lemma deque_append_room cap x d :
  (length d < cap)%nat -> deque_append cap x d = d ++ [x].
Proof.
  intros Hd. unfold deque_append.
  destruct (Nat.ltb_spec cap (length (d ++ [x]))) as [Hlt | Hge]; auto.
  rewrite length_app in Hlt. simpl in Hlt. lia.
Qed.

Lemma deque_append_full cap x d :
  length d = cap -> (0 < cap)%nat -> deque_append cap x d = tl d ++ [x].
Proof.
  intros Hd Hcap. unfold deque_append.
  destruct (Nat.ltb_spec cap (length (d ++ [x]))) as [Hlt | Hge].
  - destruct d as [| y d']; simpl in *; [lia | reflexivity].
  - rewrite length_app in Hge. simpl in Hge. lia.
Qed.

Lemma lastn_all k l : (length l <= k)%nat -> lastn k l = l.
Proof.
  intros H. unfold lastn. replace (length l - k)%nat with 0%nat by lia.
  reflexivity.
Qed.

Lemma lastn_length k l : length (lastn k l) = Nat.min k (length l).
Proof. unfold lastn. rewrite length_skipn. lia. Qed.

Lemma lastn_suffix k l : exists older, l = older ++ lastn k l.
Proof.
  exists (firstn (length l - k) l). unfold lastn.
  symmetry. apply firstn_skipn.
Qed.

Lemma lastn_lastn a b l : lastn a (lastn b l) = lastn (Nat.min a b) l.
Proof.
  unfold lastn at 1. rewrite lastn_length. unfold lastn.
  rewrite skipn_skipn. f_equal. lia.
Qed.

Lemma deque_append_lastn cap x l :
  deque_append cap x (lastn cap l) = lastn cap (l ++ [x]).
Proof.
  destruct (Nat.lt_ge_cases (length l) cap) as [Hlt | Hge].
  - rewrite (lastn_all cap l) by lia.
    rewrite deque_append_room by exact Hlt.
    rewrite lastn_all; [reflexivity |].
    rewrite length_app. simpl. lia.
  - unfold deque_append.
    assert (Hlen : length (lastn cap l ++ [x]) = S cap).
    { rewrite length_app, lastn_length. simpl. lia. }
    rewrite Hlen.
    destruct (Nat.ltb_spec cap (S cap)) as [_ | Hbad]; [| lia].
    unfold lastn. rewrite length_app. simpl length.
    replace (length l + 1 - cap)%nat with (1 + (length l - cap))%nat by lia.
    rewrite <- skipn_skipn.
    rewrite (skipn_app (length l - cap) l [x]).
    replace (length l - cap - length l)%nat with 0%nat by lia.
    reflexivity.
Qed.

End DequeFacts.

Lemma push_all_lastn es l :
  push_all es (lastn maxlen l) = lastn maxlen (l ++ es).
Proof.
  revert l. induction es as [| e es IH]; intros l; simpl.
  - now rewrite app_nil_r.
  - unfold push_all in *. simpl. rewrite deque_append_lastn, IH.
    now rewrite <- app_assoc.
Qed.

(* --------------------------------------------------------------------- *)
(** *** What the console can take, and the two ways [add_log] ends *)

Lemma encodable_app a b : encodable (a ++ b) = encodable a && encodable b.
Proof. apply forallb_app. Qed.

Lemma encodable_app_intro a b :
  encodable a = true -> encodable b = true -> encodable (a ++ b) = true.
Proof. intros Ha Hb. now rewrite encodable_app, Ha, Hb. Qed.

Lemma encodable_cons c s :
  is_surrogate c = false -> encodable s = true -> encodable (c :: s) = true.
Proof. intros Hc Hs. simpl. now rewrite Hc, Hs. Qed.

Lemma encodable_firstn n s : encodable s = true -> encodable (firstn n s) = true.
Proof.
  revert n. induction s as [| c s IH]; intros [| n] H; try reflexivity.
  simpl in *. apply andb_true_iff in H as (Hc & Hs).
  now rewrite Hc, IH.
Qed.

Lemma encodable_of_nat n : encodable (of_nat n) = true.
Proof. apply encodable_lit. Qed.

Lemma encodable_join sep ps :
  encodable sep = true -> Forall (fun p => encodable p = true) ps ->
  encodable (join sep ps) = true.
Proof.
  intros Hsep. induction 1 as [| p ps Hp Hps IH]; [reflexivity |].
  destruct ps as [| q qs]; [exact Hp |].
  change (join sep (p :: q :: qs)) with (p ++ sep ++ join sep (q :: qs)).
  now rewrite !encodable_app, Hp, Hsep, IH.
Qed.

Lemma encodable_level lvl : encodable (level_str lvl) = true.
Proof. now destruct lvl. Qed.

(** The line of an entry can be printed exactly when its message can. *)
Lemma console_line_encodable env k lvl msg dat :
  encodable (console_line (mk_entry env k lvl msg dat)) = encodable msg.
Proof.
  unfold console_line, mk_entry, slice_to. cbn [timestamp level message].
  rewrite !encodable_app, encodable_level.
  rewrite (encodable_firstn _ _ (chars_ok (now env k))). reflexivity.
Qed.

(** Solves [encodable s = true] for the messages of the source: literals,
    numbers, text of the interpreter's own, and what the context grants. *)
Ltac printable :=
  repeat first
    [ assumption
    | reflexivity
    | apply chars_ok
    | apply encodable_lit
    | apply encodable_of_nat
    | apply encodable_app_intro
    | apply encodable_cons ].

Lemma add_log_unfold env lvl msg dat w :
  add_log env lvl msg dat w
  = let e := mk_entry env (clock_reads w) lvl msg dat in
    if encodable msg then
      (Ok tt,
       {| logs := deque_append maxlen e (logs w);
          stdout := stdout w ++ [console_line e];
          clock_reads := S (clock_reads w); calls := calls w |})
    else
      (Raise (unicode_encode_error (console_line e)),
       {| logs := deque_append maxlen e (logs w);
          stdout := stdout w;
          clock_reads := S (clock_reads w); calls := calls w |}).
Proof.
  unfold add_log, print. cbv zeta.
  change (lit "[" ++ slice_to (-3) (chars (now env (clock_reads w)))
          ++ lit "] [" ++ level_str lvl ++ lit "] " ++ msg)
    with (console_line (mk_entry env (clock_reads w) lvl msg dat)).
  rewrite console_line_encodable.
  now destruct (encodable msg).
Qed.

Lemma add_log_logs env lvl msg dat w :
  logs (snd (add_log env lvl msg dat w))
  = deque_append maxlen (mk_entry env (clock_reads w) lvl msg dat) (logs w).
Proof. rewrite add_log_unfold. cbv zeta. now destruct (encodable msg). Qed.

Lemma add_log_clock env lvl msg dat w :
  clock_reads (snd (add_log env lvl msg dat w)) = S (clock_reads w).
Proof. rewrite add_log_unfold. cbv zeta. now destruct (encodable msg). Qed.

Lemma add_log_calls env lvl msg dat w :
  calls (snd (add_log env lvl msg dat w)) = calls w.
Proof. rewrite add_log_unfold. cbv zeta. now destruct (encodable msg). Qed.

(** A message the console can take: the call returns and prints its line. *)
Lemma add_log_ok env lvl msg dat w :
  encodable msg = true ->
  add_log env lvl msg dat w = (Ok tt, logged env lvl msg dat w).
Proof.
  intros H. unfold logged. rewrite add_log_unfold. cbv zeta. now rewrite H.
Qed.

(** Runs the [add_log] calls at the head of a goal whose messages the
    console can take. *)
Ltac run_logs :=
  repeat (rewrite add_log_ok by printable; cbv beta iota).

Arguments add_log : simpl never.

Lemma add_log_stdout env lvl msg dat w :
  encodable msg = true ->
  stdout (snd (add_log env lvl msg dat w))
  = stdout w ++ [console_line (mk_entry env (clock_reads w) lvl msg dat)].
Proof. intros H. rewrite add_log_unfold. cbv zeta. now rewrite H. Qed.

(** A message it cannot take: the entry is stored, the clock was read,
    nothing is printed and [UnicodeEncodeError] is raised. *)
Lemma add_log_raise env lvl msg dat w :
  encodable msg = false ->
  fst (add_log env lvl msg dat w)
  = Raise (unicode_encode_error
             (console_line (mk_entry env (clock_reads w) lvl msg dat))) /\
  stdout (snd (add_log env lvl msg dat w)) = stdout w.
Proof. intros H. rewrite add_log_unfold. cbv zeta. now rewrite H. Qed.

(** The only exception [add_log] raises is [UnicodeEncodeError]. *)
Lemma add_log_raise_inv env lvl msg dat w e w' :
  add_log env lvl msg dat w = (Raise e, w') ->
  encodable msg = false /\ exc_class e = UnicodeEncodeError.
Proof.
  rewrite add_log_unfold. cbv zeta.
  destruct (encodable msg); intros H; [discriminate |].
  injection H as <- _. now split.
Qed.

Lemma append_all_logs env items w :
  logs (append_all env items w)
  = push_all (entries_from env (clock_reads w) items) (logs w).
Proof.
  revert w. induction items as [| [[lvl msg] dat] rest IH]; intros w.
  - reflexivity.
  - simpl append_all. rewrite IH, add_log_logs, add_log_clock. reflexivity.
Qed.

Lemma append_all_recent env items :
  logs (append_all env items initial_world)
  = lastn maxlen (entries_from env 0 items).
Proof.
  rewrite append_all_logs. simpl logs. simpl clock_reads.
  change (@nil LogEntry) with (lastn maxlen (@nil LogEntry)).
  now rewrite push_all_lastn.
Qed.

(** The console gets the lines of the entries whose message it can take. *)
Lemma append_all_console env items w :
  stdout (append_all env items w)
  = stdout w ++ map console_line
                  (filter (fun e => encodable (message e))
                     (entries_from env (clock_reads w) items)).
Proof.
  revert w. induction items as [| [[lvl msg] dat] rest IH]; intros w.
  - simpl. now rewrite app_nil_r.
  - simpl append_all. rewrite IH, add_log_clock. simpl.
    destruct (encodable msg) eqn:E.
    + rewrite add_log_stdout by exact E. simpl. now rewrite <- app_assoc.
    + now rewrite (proj2 (add_log_raise env lvl msg dat w E)).
Qed.

Lemma filter_all {A : Type} (f : A -> bool) (l : list A) :
  Forall (fun x => f x = true) l -> filter f l = l.
Proof.
  induction 1 as [| x l Hx _ IH]; simpl; [reflexivity |].
  now rewrite Hx, IH.
Qed.

Lemma entries_from_messages env k items :
  Forall (fun it => encodable (snd (fst it)) = true) items ->
  Forall (fun e => encodable (message e) = true) (entries_from env k items).
Proof.
  intros H. revert k.
  induction H as [| [[lvl msg] dat] rest Hx _ IH]; intros k; simpl;
    constructor; [exact Hx | apply IH].
Qed.

Lemma append_all_stdout env items w :
  Forall (fun it => encodable (snd (fst it)) = true) items ->
  stdout (append_all env items w)
  = stdout w ++ map console_line (entries_from env (clock_reads w) items).
Proof.
  intros H. rewrite append_all_console, filter_all; [reflexivity |].
  now apply entries_from_messages.
Qed.

Lemma entries_from_length env k items :
  length (entries_from env k items) = length items.
Proof.
  revert k. induction items as [| [[lvl msg] dat] rest IH]; intros k; simpl.
  - reflexivity.
  - now rewrite IH.
Qed.

Lemma slice_from_neg {A : Type} (n : Z) (l : list A) :
  1 <= n -> slice_from (- n) l = lastn (Z.to_nat n) l.
Proof.
  intros Hn. unfold slice_from, lastn, clamp_index.
  destruct (Z.ltb_spec (- n) 0) as [_ | Hbad]; [| lia].
  f_equal. lia.
Qed.

Lemma slice_from_zero {A : Type} (l : list A) : slice_from (- 0) l = l.
Proof.
  unfold slice_from, clamp_index. simpl.
  rewrite Z.min_l by lia. reflexivity.
Qed.

(* ===================================================================== *)
(** ** The bound of the buffer across requests *)
(* ===================================================================== *)

Section KeepsBound.

Variable env : Env.

Lemma kb_ret {A : Type} (a : A) : keeps_bound (ret a).
Proof. intros w H. exact H. Qed.

Lemma kb_lift {A : Type} (o : Outcome A) : keeps_bound (lift o).
Proof. intros w H. exact H. Qed.

Lemma kb_invoke {A : Type} c (f : list Call -> Outcome A) :
  keeps_bound (invoke c f).
Proof. intros w H. exact H. Qed.

Lemma kb_add_log lvl msg dat : keeps_bound (add_log env lvl msg dat).
Proof. intros w H. rewrite add_log_logs. now apply deque_append_length. Qed.

Lemma kb_bind {A B : Type} (m : M A) (k : A -> M B) :
  keeps_bound m -> (forall a, keeps_bound (k a)) -> keeps_bound (bind m k).
Proof.
  intros Hm Hk w H. unfold bind. specialize (Hm w H).
  destruct (m w) as [[a | e] w1]; simpl in *.
  - now apply Hk.
  - exact Hm.
Qed.

Lemma kb_try_except {A : Type} (m : M A) (h : Exn -> M A) :
  keeps_bound m -> (forall e, keeps_bound (h e)) ->
  keeps_bound (try_except m h).
Proof.
  intros Hm Hh w H. unfold try_except. specialize (Hm w H).
  destruct (m w) as [[a | e] w1]; simpl in *.
  - exact Hm.
  - now apply Hh.
Qed.

Ltac keeps :=
  repeat first
    [ assumption
    | apply kb_ret | apply kb_lift | apply kb_invoke | apply kb_add_log
    | apply kb_bind; [| intros ?]
    | apply kb_try_except; [| intros ?]
    | match goal with
      | |- keeps_bound (if ?b then _ else _) => destruct b
      | |- keeps_bound (match ?x with _ => _ end) => destruct x
      end ].

Lemma kb_param_details items : keeps_bound (param_details env items).
Proof.
  induction items as [| [param_name param_info] rest IH]; simpl; keeps.
Qed.

Lemma kb_describe_tools tools :
  forall i acc, keeps_bound (describe_tools env i tools acc).
Proof.
  induction tools as [| tool rest IH]; intros i acc; simpl.
  - keeps.
  - apply kb_bind; [| intros lines; apply IH].
    apply kb_try_except; [| intros e; keeps].
    apply kb_bind; [| intros ?; keeps].
    destruct (lookup (lit "properties") (inputSchema tool)); [| keeps].
    apply kb_bind; [keeps | intros items].
    apply kb_bind; [apply kb_param_details | intros ?; keeps].
Qed.

Lemma kb_get_tools_list : keeps_bound (get_tools_list env).
Proof. unfold get_tools_list. keeps. Qed.

Lemma kb_call_tool name arguments :
  keeps_bound (call_tool_with_session env name arguments).
Proof. unfold call_tool_with_session. keeps. Qed.

Lemma kb_recommend_steps mood activity loc tags :
  keeps_bound (recommend_steps env mood activity loc tags).
Proof.
  unfold recommend_steps, run_async.
  repeat first
    [ apply kb_get_tools_list | apply kb_call_tool | apply kb_describe_tools
    | apply kb_ret | apply kb_lift | apply kb_invoke | apply kb_add_log
    | apply kb_bind; [| intros ?] ].
Qed.

Lemma kb_recommend_respond mem gem reas p :
  keeps_bound (recommend_respond env mem gem reas p).
Proof. unfold recommend_respond, parse_payload, log_payload. keeps. Qed.

Lemma kb_recommend_try req : keeps_bound (recommend_try env req).
Proof.
  unfold recommend_try, recommend_until_tool, read_fields.
  repeat first
    [ apply kb_recommend_steps | apply kb_recommend_respond
    | apply kb_ret | apply kb_lift | apply kb_add_log
    | apply kb_bind; [| intros ?]
    | match goal with
      | |- keeps_bound (if ?b then _ else _) => destruct b
      | |- keeps_bound (match ?x with _ => _ end) => destruct x
      end ].
Qed.

Lemma serves_keeps_bound w w' :
  serves env w w' ->
  (length (logs w) <= maxlen)%nat -> (length (logs w') <= maxlen)%nat.
Proof.
  intros [req w0 | req w0 | w0] H.
  - unfold recommend, try_return.
    pose proof (kb_recommend_try req w0 H) as Ht.
    destruct (recommend_try env req w0) as [[r | e] w1]; simpl in *.
    + exact Ht.
    + pose proof (kb_add_log ERROR
                    ([0x274C]%N ++ lit " Exception occurred: "
                     ++ chars (exc_msg e)) None w1 Ht) as Hl.
      now destruct (add_log env ERROR _ None w1) as [[u | e'] w2].
  - exact H.
  - unfold clear_logs, try_return, bind. rewrite add_log_unfold. cbv zeta.
    simpl. unfold maxlen. lia.
Qed.

(** Whatever requests have been served, the buffer holds at most 1000
    entries. *)
Lemma buffer_bounded_always w :
  reachable env w -> (length (logs w) <= 1000)%nat.
Proof.
  induction 1 as [| w w' _ IH Hs].
  - simpl. lia.
  - exact (serves_keeps_bound w w' Hs IH).
Qed.

End KeepsBound.

(** X16. Whatever requests have been served the buffer holds at most 1000
    entries. After any sequence of [add_log] calls it holds at most 1000
    entries, namely the last 1000 built; one more call on a full buffer
    drops exactly the oldest entry and puts the new one last, and on a
    buffer with room only adds it; and for every limit [n >= 1],
    [get_logs n] leaves the buffer alone and returns at most [n] entries:
    the last [min n 1000] entries built, oldest first. *)
Theorem log_buffer_bounded_fifo :
  forall (env : Env) (items : list (Level * str * option dict))
         (lvl : Level) (msg : str) (dat : option dict) (n : Z),
    1 <= n ->
    let w := append_all env items initial_world in
    let every := entries_from env 0 items in
    let e := mk_entry env (clock_reads w) lvl msg dat in
    let w' := snd (add_log env lvl msg dat w) in
    let recent := lastn (Nat.min (Z.to_nat n) 1000) every in
    (forall w0, reachable env w0 -> (length (logs w0) <= 1000)%nat) /\
    (length (logs w) <= 1000)%nat /\
    logs w = lastn 1000 every /\
    (length (logs w) = 1000%nat -> logs w' = tl (logs w) ++ [e]) /\
    ((length (logs w) < 1000)%nat -> logs w' = logs w ++ [e]) /\
    get_logs n w = (Ok recent, w) /\
    Z.of_nat (length recent) <= n /\
    (exists older, every = older ++ recent).
Proof.
  intros env items lvl msg dat n Hn w every e w' recent.
  change 1000%nat with maxlen in *.
  assert (Hlogs : logs w = lastn maxlen every) by apply append_all_recent.
  assert (Hbound : (length (logs w) <= maxlen)%nat).
  { rewrite Hlogs, lastn_length. lia. }
  split; [intros w0 Hw0; exact (buffer_bounded_always env w0 Hw0) |].
  repeat split.
  - exact Hbound.
  - exact Hlogs.
  - intros Hfull. subst w'. rewrite add_log_logs.
    apply deque_append_full; [exact Hfull | unfold maxlen; lia].
  - intros Hroom. subst w'. rewrite add_log_logs.
    now apply deque_append_room.
  - unfold get_logs. rewrite slice_from_neg by exact Hn.
    rewrite Hlogs, lastn_lastn. reflexivity.
  - subst recent. rewrite lastn_length. lia.
  - apply lastn_suffix.
Qed.

(** C8. [get_logs] returns without raising and leaves the whole state as it
    was, so two calls in a row with the same limit return the same list;
    the same holds of the [/logs] handler and its response. *)
Theorem get_logs_nondestructive :
  forall (limit : Z) (req : Request) (w : World),
    (exists r,
        get_logs limit w = (Ok r, w) /\
        (r1 <- get_logs limit ;; r2 <- get_logs limit ;; ret (r1, r2)) w
        = (Ok (r, r), w)) /\
    (exists resp,
        get_logs_endpoint req w = (resp, w) /\
        get_logs_endpoint req (snd (get_logs_endpoint req w)) = (resp, w)).
Proof.
  intros limit req w. split.
  - exists (slice_from (- limit) (logs w)). split; reflexivity.
  - eexists. split; reflexivity.
Qed.

(** C9. With limit 0 the slice [list(logs)[-0:]] is the whole list:
    [get_logs 0] returns every stored entry, and [GET /logs?limit=0]
    answers 200 with all of them and a count equal to the buffer size. *)
Theorem get_logs_zero_returns_all :
  forall (rj : Outcome json) (w : World),
    get_logs 0 w = (Ok (logs w), w) /\
    get_logs_endpoint {| request_json := rj; request_args_limit := Some 0 |} w
    = ({| status := 200;
          body := JObj [ (lit "logs", JArr (map entry_json (logs w)));
                         (lit "count", JInt (Z.of_nat (length (logs w)))) ] |},
       w).
Proof.
  intros rj w.
  assert (H : get_logs 0 w = (Ok (logs w), w)).
  { unfold get_logs. now rewrite slice_from_zero. }
  split; [exact H |].
  cbv beta iota zeta delta
    [get_logs_endpoint try_return bind get_logs request_args_limit ret].
  rewrite slice_from_zero. reflexivity.
Qed.

Lemma log_buffer_bounded_fifo_witness :
  let env := demo_env (Ok []) in
  let w := append_all env thousand_ticks initial_world in
  1 <= 3 /\
  length (logs w) = 1000%nat /\
  logs (snd (add_log env WARNING (lit "late") None w))
  = tl (logs w) ++ [mk_entry env 1000 WARNING (lit "late") None] /\
  get_logs 3 w = (Ok (lastn 3 (entries_from env 0 thousand_ticks)), w).
Proof.
  intros env w.
  assert (Hn : 1 <= 3) by lia.
  destruct (log_buffer_bounded_fifo env thousand_ticks WARNING (lit "late")
              None 3 Hn) as (_ & _ & _ & Hfull & _ & Hget & _).
  assert (Hlen : length (logs w) = 1000%nat) by (vm_compute; reflexivity).
  split; [exact Hn |]. split; [exact Hlen |]. split.
  - exact (Hfull Hlen).
  - exact Hget.
Defined.

(** C2. A read with limit [N] is to return at most [N] entries; at limit
    0 the code does not: with one entry in the buffer, [get_logs 0], which
    is [list(logs)[-0:]], returns that entry, the whole buffer, and not an
    empty list. *)
Theorem get_logs_zero_exceeds_limit :
  let w := append_all (demo_env (Ok [])) [(INFO, lit "one", None)]
             initial_world in
  exists r,
    get_logs 0 w = (Ok r, w) /\ r = logs w /\ length r = 1%nat /\
    ~ (Z.of_nat (length r) <= 0).
Proof.
  intros w. exists (logs w).
  split; [reflexivity |]. split; [reflexivity |]. split; [reflexivity |].
  change (length (logs w)) with 1%nat. lia.
Qed.

(* ===================================================================== *)
(** ** Trimming and splitting text *)
(* ===================================================================== *)

Lemma lstrip_blank sp : blank sp -> lstrip sp = [].
Proof.
  induction 1 as [| c sp Hc _ IH]; simpl; [reflexivity |].
  now rewrite Hc.
Qed.

Lemma lstrip_app p q :
  lstrip (p ++ q) = match lstrip p with [] => lstrip q | _ => lstrip p ++ q end.
Proof.
  induction p as [| c p IH]; simpl.
  - reflexivity.
  - destruct (is_space c); [exact IH | reflexivity].
Qed.

Lemma lstrip_blank_app sp p : blank sp -> lstrip (sp ++ p) = lstrip p.
Proof. intros H. rewrite lstrip_app, (lstrip_blank sp H). reflexivity. Qed.

Lemma lstrip_split s : exists sp, blank sp /\ s = sp ++ lstrip s.
Proof.
  induction s as [| c s (sp & Hsp & Heq)]; simpl.
  - exists []. split; [constructor | reflexivity].
  - destruct (is_space c) eqn:Hc.
    + exists (c :: sp). split; [now constructor |].
      simpl. now f_equal.
    + exists []. split; [constructor | reflexivity].
Qed.

Lemma lstrip_idem s : lstrip (lstrip s) = lstrip s.
Proof.
  induction s as [| c s IH]; simpl; [reflexivity |].
  destruct (is_space c) eqn:Hc; [exact IH |].
  simpl. now rewrite Hc.
Qed.

Lemma blank_rev sp : blank sp -> blank (rev sp).
Proof. apply Forall_rev. Qed.

Lemma rstrip_cons c u :
  rstrip (c :: u) =
  match rstrip u with
  | [] => if is_space c then [] else [c]
  | _ => c :: rstrip u
  end.
Proof.
  unfold rstrip. simpl rev. rewrite lstrip_app.
  destruct (lstrip (rev u)) as [| y l] eqn:Hl.
  - simpl. destruct (is_space c); reflexivity.
  - rewrite rev_unit.
    match goal with
    | |- context [match ?r with _ => _ end] => destruct r as [| z r'] eqn:Hr
    end; [| reflexivity].
    apply (f_equal (@rev _)) in Hr. rewrite rev_involutive in Hr.
    discriminate Hr.
Qed.

Lemma rstrip_blank_app p sp : blank sp -> rstrip (p ++ sp) = rstrip p.
Proof.
  intros H. unfold rstrip. rewrite rev_app_distr.
  now rewrite lstrip_blank_app by now apply blank_rev.
Qed.

Lemma rstrip_split s : exists sp, blank sp /\ s = rstrip s ++ sp.
Proof.
  destruct (lstrip_split (rev s)) as (sp & Hsp & Heq).
  exists (rev sp). split; [now apply blank_rev |].
  unfold rstrip. rewrite <- rev_app_distr, <- Heq.
  now rewrite rev_involutive.
Qed.

Lemma rstrip_idem s : rstrip (rstrip s) = rstrip s.
Proof. unfold rstrip. now rewrite rev_involutive, lstrip_idem. Qed.

Lemma lstrip_clean_start s : clean_start (lstrip s).
Proof.
  induction s as [| c s IH]; simpl; [exact I |].
  destruct (is_space c) eqn:Hc; [exact IH | exact Hc].
Qed.

Lemma lstrip_of_clean s : clean_start s -> lstrip s = s.
Proof. destruct s as [| c s]; simpl; [reflexivity | now intros ->]. Qed.

Lemma rstrip_clean_start s : clean_start s -> clean_start (rstrip s).
Proof.
  destruct s as [| c s]; [intros _; exact I |].
  simpl. intros Hc. rewrite rstrip_cons, Hc.
  destruct (rstrip s); simpl; exact Hc.
Qed.

Lemma strip_idem s : strip (strip s) = strip s.
Proof.
  unfold strip.
  rewrite (lstrip_of_clean (rstrip (lstrip s))).
  - apply rstrip_idem.
  - apply rstrip_clean_start, lstrip_clean_start.
Qed.

Lemma strip_blank_l sp p : blank sp -> strip (sp ++ p) = strip p.
Proof. intros H. unfold strip. now rewrite lstrip_blank_app. Qed.

Lemma strip_blank_r p sp : blank sp -> strip (p ++ sp) = strip p.
Proof.
  intros H. unfold strip. rewrite lstrip_app.
  destruct (lstrip p) as [| y l] eqn:Hl.
  - now rewrite (lstrip_blank sp H).
  - now apply rstrip_blank_app.
Qed.

Lemma strip_split s :
  exists sp1 sp2, blank sp1 /\ blank sp2 /\ s = sp1 ++ strip s ++ sp2.
Proof.
  destruct (lstrip_split s) as (sp1 & H1 & E1).
  destruct (rstrip_split (lstrip s)) as (sp2 & H2 & E2).
  exists sp1, sp2. repeat split; try assumption.
  unfold strip. now rewrite <- E2.
Qed.

Lemma strip_solid s : solid s -> strip s = s.
Proof.
  intros H. unfold strip.
  assert (Hl : forall t, solid t -> lstrip t = t).
  { intros t Ht. apply lstrip_of_clean. destruct Ht; simpl; auto. }
  rewrite (Hl s H). unfold rstrip.
  rewrite Hl by now apply Forall_rev.
  apply rev_involutive.
Qed.

(** The comma is not whitespace, so whitespace holds no comma. *)
Lemma blank_no_comma sp : blank sp -> Forall (fun c => (c =? comma)%N = false) sp.
Proof.
  apply Forall_impl. intros c Hc.
  destruct (N.eqb_spec c comma) as [-> | _]; [discriminate Hc | reflexivity].
Qed.

Lemma contains_app c p q : contains c (p ++ q) = contains c p || contains c q.
Proof. apply existsb_app. Qed.

Lemma contains_free c s :
  Forall (fun x => (x =? c)%N = false) s -> contains c s = false.
Proof.
  induction 1 as [| x s Hx _ IH]; simpl; [reflexivity |].
  rewrite N.eqb_sym, Hx. exact IH.
Qed.

Lemma contains_strip s : contains comma (strip s) = contains comma s.
Proof.
  destruct (strip_split s) as (sp1 & sp2 & H1 & H2 & E).
  rewrite E at 2. rewrite !contains_app.
  rewrite (contains_free comma sp1), (contains_free comma sp2)
    by now apply blank_no_comma.
  now rewrite orb_false_r.
Qed.

Lemma split_char_nonempty c s : split_char c s <> [].
Proof.
  destruct s as [| x s]; simpl; [discriminate |].
  destruct (x =? c)%N; [discriminate |].
  destruct (split_char c s); discriminate.
Qed.

(** Joining the pieces with the separator gives the text back. *)
Lemma join_split_char c s : join [c] (split_char c s) = s.
Proof.
  induction s as [| x s IH]; simpl; [reflexivity |].
  destruct (N.eqb_spec x c) as [-> | Hne].
  - pose proof (split_char_nonempty c s) as Hn.
    destruct (split_char c s) as [| p ps]; [congruence |].
    simpl in *. now rewrite IH.
  - pose proof (split_char_nonempty c s) as Hn.
    destruct (split_char c s) as [| p ps]; [congruence |].
    destruct ps as [| q qs]; simpl in *; now rewrite <- IH.
Qed.

(** No piece holds the separator. *)
Lemma split_char_free c s :
  Forall (fun p => contains c p = false) (split_char c s).
Proof.
  induction s as [| x s IH]; simpl.
  - repeat constructor.
  - destruct (N.eqb_spec x c) as [-> | Hne].
    + constructor; [reflexivity | exact IH].
    + destruct (split_char c s) as [| p ps].
      * repeat constructor. simpl.
        destruct (N.eqb_spec c x); [congruence | reflexivity].
      * inversion IH as [| ? ? Hp Hps]; subst.
        constructor; [| exact Hps]. simpl.
        destruct (N.eqb_spec c x); [congruence | exact Hp].
Qed.

Lemma split_char_prefix c a t :
  Forall (fun x => (x =? c)%N = false) a ->
  split_char c (a ++ t) =
  match split_char c t with
  | p :: ps => (a ++ p) :: ps
  | [] => [a]
  end.
Proof.
  induction 1 as [| x a Hx _ IH]; simpl.
  - pose proof (split_char_nonempty c t).
    destruct (split_char c t); [congruence | reflexivity].
  - rewrite Hx, IH.
    destruct (split_char c t); reflexivity.
Qed.

Lemma split_char_suffix c t b :
  Forall (fun x => (x =? c)%N = false) b ->
  exists init last,
    split_char c t = init ++ [last] /\
    split_char c (t ++ b) = init ++ [last ++ b].
Proof.
  intros Hb. induction t as [| x t (init & last & E1 & E2)].
  - exists [], []. split; [reflexivity |].
    simpl. rewrite <- (app_nil_r b) at 1.
    rewrite split_char_prefix by exact Hb. simpl. now rewrite app_nil_r.
  - simpl. destruct (x =? c)%N.
    + exists ([] :: init), last. rewrite E1, E2. split; reflexivity.
    + rewrite E1, E2. destruct init as [| p q]; simpl.
      * exists [], (x :: last). split; reflexivity.
      * exists ((x :: p) :: q), last. split; reflexivity.
Qed.

Lemma split_ws_blank sp : blank sp -> split_ws sp = [].
Proof.
  induction 1 as [| c sp Hc _ IH]; simpl; [reflexivity |].
  now rewrite Hc.
Qed.

Lemma split_ws_blank_l sp s : blank sp -> split_ws (sp ++ s) = split_ws s.
Proof.
  induction 1 as [| c sp Hc _ IH]; simpl; [reflexivity |].
  now rewrite Hc.
Qed.

Lemma split_ws_cons2 x y s :
  split_ws (x :: y :: s) =
  if is_space x then split_ws (y :: s)
  else if is_space y then [x] :: split_ws (y :: s)
  else match split_ws (y :: s) with
       | p :: ps => (x :: p) :: ps
       | [] => [[x]]
       end.
Proof. reflexivity. Qed.

Lemma split_ws_single x : split_ws [x] = if is_space x then [] else [[x]].
Proof. reflexivity. Qed.

Lemma split_ws_blank_r s sp : blank sp -> split_ws (s ++ sp) = split_ws s.
Proof.
  intros Hsp. induction s as [| x s IH].
  - simpl. now apply split_ws_blank.
  - destruct s as [| y s'].
    + rewrite split_ws_single. simpl app.
      destruct Hsp as [| z sp Hz Hsp]; [apply split_ws_single |].
      rewrite split_ws_cons2, Hz.
      rewrite (split_ws_blank (z :: sp)) by now constructor.
      reflexivity.
    + rewrite <- !app_comm_cons, !split_ws_cons2.
      rewrite app_comm_cons, IH. reflexivity.
Qed.

Lemma split_ws_strip s : split_ws (strip s) = split_ws s.
Proof.
  destruct (strip_split s) as (sp1 & sp2 & H1 & H2 & E).
  rewrite E at 2.
  now rewrite split_ws_blank_l, split_ws_blank_r.
Qed.

(** Every piece of [s.split()] is non-empty and free of whitespace. *)
Lemma split_ws_pieces s :
  Forall (fun p => p <> [] /\ solid p) (split_ws s).
Proof.
  induction s as [| x s IH]; [constructor |].
  destruct s as [| y s'].
  - rewrite split_ws_single. destruct (is_space x) eqn:Hx; [constructor |].
    repeat constructor; [discriminate | exact Hx].
  - rewrite split_ws_cons2.
    destruct (is_space x) eqn:Hx; [exact IH |].
    destruct (is_space y) eqn:Hy.
    + constructor; [| exact IH].
      split; [discriminate | repeat constructor; exact Hx].
    + destruct (split_ws (y :: s')) as [| p ps].
      * repeat constructor; [discriminate | exact Hx].
      * inversion IH as [| ? ? [Hp Hsol] Hps]; subst.
        constructor; [| exact Hps].
        split; [discriminate | constructor; assumption].
Qed.

(** The pieces, put end to end, are the text without its whitespace. *)
Lemma split_ws_concat s :
  concat (split_ws s) = filter (fun c => negb (is_space c)) s.
Proof.
  induction s as [| x s IH]; [reflexivity |].
  destruct s as [| y s'].
  - rewrite split_ws_single. simpl. destruct (is_space x); reflexivity.
  - rewrite split_ws_cons2.
    change (filter (fun c => negb (is_space c)) (x :: y :: s'))
      with (if negb (is_space x)
            then x :: filter (fun c => negb (is_space c)) (y :: s')
            else filter (fun c => negb (is_space c)) (y :: s')).
    rewrite <- IH.
    destruct (is_space x) eqn:Hx; simpl negb; cbv iota; [reflexivity |].
    destruct (is_space y) eqn:Hy; [reflexivity |].
    destruct (split_ws (y :: s')) as [| p ps] eqn:Hs; [| reflexivity].
    exfalso. simpl in IH. rewrite Hy in IH. simpl in IH. discriminate IH.
Qed.

Lemma filter_map_swap {A B : Type} (f : A -> B) (p : B -> bool) (l : list A) :
  map f (filter (fun a => p (f a)) l) = filter p (map f l).
Proof.
  induction l as [| a l IH]; simpl; [reflexivity |].
  destruct (p (f a)); simpl; now rewrite IH.
Qed.

Lemma truthy_nonempty s : truthy s = true <-> s <> [].
Proof. destruct s; simpl; split; congruence. Qed.

Lemma parse_tags_is_tokens s : parse_tags s = tokens_spec s.
Proof.
  unfold parse_tags, tokens_spec.
  destruct s as [| c s']; [reflexivity |].
  simpl truthy. cbv iota. apply filter_map_swap.
Qed.

Lemma tokens_without_comma s :
  contains comma s = false -> tokens_spec s = split_ws s.
Proof.
  intros Hc. unfold tokens_spec. rewrite Hc.
  pose proof (split_ws_pieces s) as H.
  induction H as [| p ps [Hne Hsol] _ IH]; simpl; [reflexivity |].
  rewrite (strip_solid p Hsol).
  destruct p; [congruence |]. simpl. now rewrite IH.
Qed.

Lemma tokens_trimmed s :
  Forall (fun t => t <> [] /\ strip t = t) (tokens_spec s).
Proof.
  unfold tokens_spec. apply Forall_forall. intros t Ht.
  apply filter_In in Ht. destruct Ht as [Hin Htr].
  apply in_map_iff in Hin. destruct Hin as (p & <- & _).
  split; [now apply truthy_nonempty | apply strip_idem].
Qed.

Lemma tokens_strip s : tokens_spec (strip s) = tokens_spec s.
Proof.
  unfold tokens_spec. rewrite contains_strip.
  destruct (contains comma s) eqn:Hc; [| now rewrite split_ws_strip].
  destruct (strip_split s) as (sp1 & sp2 & H1 & H2 & E).
  rewrite E at 2.
  destruct (split_char_suffix comma (strip s) sp2 (blank_no_comma sp2 H2))
    as (init & last & E1 & E2).
  rewrite (split_char_prefix comma sp1) by now apply blank_no_comma.
  rewrite E2, E1.
  destruct init as [| p q]; simpl.
  - now rewrite strip_blank_l, strip_blank_r.
  - rewrite strip_blank_l by exact H1.
    destruct (truthy (strip p)); [f_equal |];
      rewrite !map_app, !filter_app; simpl;
      now rewrite strip_blank_r.
Qed.

Lemma strip_blank sp : blank sp -> strip sp = [].
Proof. intros H. unfold strip. now rewrite (lstrip_blank sp H). Qed.

Lemma is_blank_spec p : is_blank p = true <-> blank p.
Proof.
  unfold is_blank, blank. rewrite forallb_forall, Forall_forall. reflexivity.
Qed.

Lemma strip_clean_start s : clean_start (strip s).
Proof. apply rstrip_clean_start, lstrip_clean_start. Qed.

Lemma strip_clean_end s : clean_end (strip s).
Proof.
  unfold clean_end, strip, rstrip. rewrite rev_involutive.
  apply lstrip_clean_start.
Qed.

Lemma strip_empty_blank p : strip p = [] -> blank p.
Proof.
  intros H. destruct (strip_split p) as (sp1 & sp2 & H1 & H2 & E).
  rewrite H in E. rewrite E. apply Forall_app. now split.
Qed.

(** What [strip] gives is the text without the whitespace at its ends. *)
Lemma strip_trimmed p : trimmed_of p (strip p).
Proof.
  destruct (strip_split p) as (sp1 & sp2 & H1 & H2 & E).
  exists sp1, sp2.
  repeat split; auto using strip_clean_start, strip_clean_end.
Qed.

Lemma tokens_trimmed_of ps :
  Forall2 trimmed_of (filter (fun p => negb (is_blank p)) ps)
    (filter truthy (map strip ps)).
Proof.
  induction ps as [| p ps IH]; simpl; [constructor |].
  destruct (is_blank p) eqn:Hb; simpl.
  - apply is_blank_spec in Hb. now rewrite (strip_blank p Hb).
  - destruct (strip p) as [| c t] eqn:Hs.
    + apply strip_empty_blank, is_blank_spec in Hs. congruence.
    + simpl. constructor; [| exact IH]. rewrite <- Hs. apply strip_trimmed.
Qed.

Lemma ws_split_space x s ps :
  is_space x = true -> ws_split s ps -> ws_split (x :: s) ps.
Proof.
  intros Hx H. destruct H as [sp Hsp | sp p rest ps Hsp Hp Hne Hrest Hps].
  - apply ws_done. now constructor.
  - apply (ws_piece (x :: sp) p rest ps); auto. now constructor.
Qed.

(** [split_ws] cuts at every run of whitespace and nowhere else. *)
Lemma split_ws_maximal s : ws_split s (split_ws s).
Proof.
  induction s as [| x s IH]; [apply ws_done; constructor |].
  destruct s as [| y s'].
  - rewrite split_ws_single. destruct (is_space x) eqn:Hx.
    + apply ws_done. now repeat constructor.
    + apply (ws_piece [] [x] [] []);
        [constructor | now repeat constructor | discriminate | exact I
        | apply ws_done; constructor].
  - rewrite split_ws_cons2. destruct (is_space x) eqn:Hx.
    + now apply ws_split_space.
    + destruct (is_space y) eqn:Hy.
      * apply (ws_piece [] [x] (y :: s') (split_ws (y :: s')));
          [constructor | now repeat constructor | discriminate | exact Hy
          | exact IH].
      * remember (split_ws (y :: s')) as ps eqn:Eps.
        remember (y :: s') as u eqn:Eu.
        destruct IH as [sp Hsp | sp p rest ps Hsp Hp Hne Hrest Hps].
        -- subst sp. inversion Hsp as [| ? ? Hy' _]; subst. congruence.
        -- destruct sp as [| c sp'].
           ++ simpl in Eu. simpl.
              apply (ws_piece [] (x :: p) rest ps);
                [constructor | now constructor | discriminate | exact Hrest
                | exact Hps].
           ++ simpl in Eu. injection Eu as -> _.
              inversion Hsp as [| ? ? Hy' _]; subst. congruence.
Qed.

Lemma tokens_clean s :
  Forall (fun t => t <> [] /\ strip t = t /\ clean_start t /\ clean_end t)
    (tokens_spec s).
Proof.
  unfold tokens_spec. apply Forall_forall. intros t Ht.
  apply filter_In in Ht. destruct Ht as [Hin Htr].
  apply in_map_iff in Hin. destruct Hin as (p & <- & _).
  split; [now apply truthy_nonempty |].
  split; [apply strip_idem |].
  split; [apply strip_clean_start | apply strip_clean_end].
Qed.

(** C7. The tags of a text are the pieces between commas when it holds a
    comma and the pieces between whitespace otherwise, each trimmed, the
    empty ones dropped, in their order in the text: the pieces that are
    not all whitespace, each without the whitespace at its two ends.
    Trimming the text beforehand, as the handler does, changes nothing; the
    comma pieces joined by commas give the text back and hold no comma; the
    whitespace pieces are the maximal whitespace-free runs; and every tag
    is non-empty and neither begins nor ends with whitespace. *)
Theorem parse_tags_tokens :
  forall s : str,
    let pieces :=
      if contains comma s then split_char comma s else split_ws s in
    parse_tags s = tokens_spec s /\
    parse_tags (strip s) = parse_tags s /\
    Forall2 trimmed_of (filter (fun p => negb (is_blank p)) pieces)
      (parse_tags s) /\
    (contains comma s = true ->
       parse_tags s = filter truthy (map strip (split_char comma s)) /\
       join [comma] (split_char comma s) = s /\
       Forall (fun p => contains comma p = false) (split_char comma s)) /\
    (contains comma s = false ->
       parse_tags s = split_ws s /\
       ws_split s (split_ws s) /\
       concat (split_ws s) = filter (fun c => negb (is_space c)) s /\
       Forall (fun p => p <> [] /\ solid p) (split_ws s)) /\
    Forall (fun t => t <> [] /\ strip t = t /\ clean_start t /\ clean_end t)
      (parse_tags s).
Proof.
  intros s pieces.
  split; [apply parse_tags_is_tokens |].
  split; [now rewrite !parse_tags_is_tokens, tokens_strip |].
  split; [rewrite parse_tags_is_tokens; apply tokens_trimmed_of |].
  split; [| split].
  - intros Hc. split; [| split].
    + rewrite parse_tags_is_tokens. unfold tokens_spec. now rewrite Hc.
    + apply join_split_char.
    + apply split_char_free.
  - intros Hc. split; [| split; [| split]].
    + rewrite parse_tags_is_tokens. now apply tokens_without_comma.
    + apply split_ws_maximal.
    + apply split_ws_concat.
    + apply split_ws_pieces.
  - rewrite parse_tags_is_tokens. apply tokens_clean.
Qed.

Lemma parse_tags_tokens_witness :
  contains comma (lit " pop, upbeat ,, rock ") = true /\
  contains comma (lit "  lofi   chill ") = false /\
  parse_tags (lit " pop, upbeat ,, rock ")
  = filter truthy (map strip (split_char comma (lit " pop, upbeat ,, rock "))) /\
  parse_tags (lit " pop, upbeat ,, rock ")
  = [lit "pop"; lit "upbeat"; lit "rock"] /\
  parse_tags (lit "  lofi   chill ") = split_ws (lit "  lofi   chill ") /\
  parse_tags (lit "  lofi   chill ") = [lit "lofi"; lit "chill"].
Proof.
  assert (H1 : contains comma (lit " pop, upbeat ,, rock ") = true)
    by reflexivity.
  assert (H2 : contains comma (lit "  lofi   chill ") = false)
    by reflexivity.
  destruct (parse_tags_tokens (lit " pop, upbeat ,, rock "))
    as (_ & _ & _ & Hcomma & _ & _).
  destruct (parse_tags_tokens (lit "  lofi   chill "))
    as (_ & _ & _ & _ & Hws & _).
  split; [exact H1 |]. split; [exact H2 |].
  split; [exact (proj1 (Hcomma H1)) |]. split; [reflexivity |].
  split; [exact (proj1 (Hws H2)) | reflexivity].
Defined.

(* ===================================================================== *)
(** ** The [/recommend] handler *)
(* ===================================================================== *)

Lemma bind_ok_inv {A B : Type} (m : M A) (k : A -> M B) w b w' :
  bind m k w = (Ok b, w') ->
  exists a w1, m w = (Ok a, w1) /\ k a w1 = (Ok b, w').
Proof.
  unfold bind. destruct (m w) as [[a | e] w1]; intros H.
  - now exists a, w1.
  - discriminate H.
Qed.


Lemma bind_ok {A B : Type} (m : M A) (k : A -> M B) w a w' :
  m w = (Ok a, w') -> bind m k w = k a w'.
Proof. unfold bind. now intros ->. Qed.

Lemma append_all_calls env items w : calls (append_all env items w) = calls w.
Proof.
  revert w. induction items as [| [[lvl msg] dat] rest IH]; intros w.
  - reflexivity.
  - simpl. rewrite IH. apply add_log_calls.
Qed.

(** Reading one text field that is absent or a string. *)
Lemma read_field_text {B : Type} d key (k : str -> M B) w :
  field_is_text d key = true ->
  (v <- lift (py_get (JObj d) key (JStr [])) ;;
   t <- lift (py_strip v) ;; k t) w
  = k (field_text d key) w.
Proof.
  unfold field_is_text, field_text, py_get, bind, lift.
  destruct (lookup key d) as [[] |]; intros H;
    try discriminate H; reflexivity.
Qed.

Lemma read_fields_text d lim w :
  field_is_text d (lit "mood") = true ->
  field_is_text d (lit "activity") = true ->
  field_is_text d (lit "location") = true ->
  field_is_text d (lit "tags") = true ->
  read_fields {| request_json := Ok (JObj d); request_args_limit := lim |} w
  = (Ok (field_text d (lit "mood"), field_text d (lit "activity"),
         field_text d (lit "location"), field_text d (lit "tags")), w).
Proof.
  intros Hm Ha Hl Ht. unfold read_fields.
  simpl request_json.
  change (bind (lift (Ok (JObj d))) ?k w) with (k (JObj d) w).
  cbv beta.
  rewrite (read_field_text d (lit "mood")) by exact Hm.
  rewrite (read_field_text d (lit "activity")) by exact Ha.
  rewrite (read_field_text d (lit "location")) by exact Hl.
  rewrite (read_field_text d (lit "tags")) by exact Ht.
  reflexivity.
Qed.

(** The handler up to the check of line 83, for a body whose four fields
    are each absent or a string the console can take. *)
Lemma until_tool_checked env d lim w :
  field_is_text d (lit "mood") = true ->
  field_is_text d (lit "activity") = true ->
  field_is_text d (lit "location") = true ->
  field_is_text d (lit "tags") = true ->
  encodable (field_text d (lit "mood")) = true ->
  encodable (field_text d (lit "activity")) = true ->
  encodable (field_text d (lit "location")) = true ->
  encodable (field_text d (lit "tags")) = true ->
  let mood := field_text d (lit "mood") in
  let activity := field_text d (lit "activity") in
  let loc := field_text d (lit "location") in
  let tags_raw := field_text d (lit "tags") in
  recommend_until_tool env
    {| request_json := Ok (JObj d); request_args_limit := lim |} w
  = (if negb (truthy mood) || negb (truthy activity) then
       add_log env ERROR
         ([0x274C]%N ++ lit " Validation failed: Mood and activity are required")
         None ;;
       ret (inl validation_error)
     else
       r <- recommend_steps env mood activity loc (parse_tags tags_raw) ;;
       ret (inr r))
      (append_all env
         (firstn 2 (validation_logs mood activity loc tags_raw)) w).
Proof.
  intros Hm Ha Hl Ht Em Ea El Et mood activity loc tags_raw.
  unfold recommend_until_tool. unfold bind at 1. run_logs.
  unfold bind at 1. rewrite (read_fields_text d lim _ Hm Ha Hl Ht).
  cbv beta iota. unfold bind at 1. run_logs. reflexivity.
Qed.

(** C1 (as amended). When the body is a JSON object whose [mood],
    [activity], [location] and [tags] fields are each absent or a string
    without a lone surrogate, and [mood] or [activity] is absent or empty
    after trimming, the handler answers 400 with
    [{"error": "Mood and activity are required."}]; it logs three entries
    (buffer and console) and invokes no collaborator. *)
Theorem recommend_rejects_missing_fields :
  forall (env : Env) (d : dict) (lim : option Z) (w : World),
    field_is_text d (lit "mood") = true ->
    field_is_text d (lit "activity") = true ->
    field_is_text d (lit "location") = true ->
    field_is_text d (lit "tags") = true ->
    encodable (field_text d (lit "mood")) = true ->
    encodable (field_text d (lit "activity")) = true ->
    encodable (field_text d (lit "location")) = true ->
    encodable (field_text d (lit "tags")) = true ->
    field_text d (lit "mood") = [] \/ field_text d (lit "activity") = [] ->
    let req := {| request_json := Ok (JObj d); request_args_limit := lim |} in
    let items :=
      validation_logs (field_text d (lit "mood"))
        (field_text d (lit "activity")) (field_text d (lit "location"))
        (field_text d (lit "tags")) in
    let w' := append_all env items w in
    recommend env req w = (validation_error, w') /\
    status validation_error = 400 /\
    body validation_error
    = JObj [ (lit "error", JStr (lit "Mood and activity are required.")) ] /\
    calls w' = calls w /\
    logs w' = push_all (entries_from env (clock_reads w) items) (logs w) /\
    stdout w'
    = stdout w ++ map console_line (entries_from env (clock_reads w) items).
Proof.
  intros env d lim w Hm Ha Hl Ht Em Ea El Et Hempty req items w'.
  assert (Hinvalid :
            negb (truthy (field_text d (lit "mood")))
            || negb (truthy (field_text d (lit "activity"))) = true).
  { destruct Hempty as [-> | ->]; simpl; [reflexivity | apply orb_true_r]. }
  split; [| split; [reflexivity | split; [reflexivity | split; [| split]]]].
  - unfold recommend, try_return, recommend_try. unfold bind at 1.
    subst req.
    rewrite (until_tool_checked env d lim w Hm Ha Hl Ht Em Ea El Et).
    cbv zeta. rewrite Hinvalid. unfold bind at 1. run_logs. reflexivity.
  - apply append_all_calls.
  - apply append_all_logs.
  - apply append_all_stdout. subst items. unfold validation_logs.
    repeat constructor; cbn [fst snd]; printable.
Qed.

Lemma recommend_rejects_missing_fields_witness :
  let d := [ (lit "mood", JStr []); (lit "activity", JStr (lit "running")) ] in
  let env := demo_env (Ok []) in
  field_text d (lit "mood") = [] /\
  recommend env empty_mood_request initial_world
  = (validation_error,
     append_all env
       (validation_logs [] (lit "running") [] []) initial_world) /\
  calls (snd (recommend env empty_mood_request initial_world)) = [].
Proof.
  intros d env.
  assert (Hm : field_is_text d (lit "mood") = true) by reflexivity.
  assert (Ha : field_is_text d (lit "activity") = true) by reflexivity.
  assert (Hl : field_is_text d (lit "location") = true) by reflexivity.
  assert (Ht : field_is_text d (lit "tags") = true) by reflexivity.
  assert (Em : encodable (field_text d (lit "mood")) = true) by reflexivity.
  assert (Ea : encodable (field_text d (lit "activity")) = true)
    by reflexivity.
  assert (El : encodable (field_text d (lit "location")) = true)
    by reflexivity.
  assert (Et : encodable (field_text d (lit "tags")) = true) by reflexivity.
  assert (He : field_text d (lit "mood") = []
               \/ field_text d (lit "activity") = [])
    by (left; reflexivity).
  destruct (recommend_rejects_missing_fields env d None initial_world
              Hm Ha Hl Ht Em Ea El Et He) as (Hr & _ & _ & Hc & _).
  split; [reflexivity |]. split; [exact Hr |].
  change (calls (snd (recommend env
                        {| request_json := Ok (JObj d);
                           request_args_limit := None |} initial_world)) = []).
  rewrite Hr. exact Hc.
Defined.

(** C1 as first stated fails: an empty mood with a number in [tags] is
    answered 500, since [.strip()] is called on the number before the
    check of [mood] and [activity]. *)
Lemma validation_counterexample :
  let d := [ (lit "mood", JStr []); (lit "activity", JStr (lit "running"));
             (lit "tags", JInt 5) ] in
  let r := fst (recommend (demo_env (Ok [])) numeric_tags_request
                  initial_world) in
  numeric_tags_request
  = {| request_json := Ok (JObj d); request_args_limit := None |} /\
  field_text d (lit "mood") = [] /\
  status r = 500 /\
  r = error_500 (attribute_error (JInt 5) "strip") /\
  r <> validation_error.
Proof.
  intros d r. repeat split. discriminate.
Qed.

(** C10. A request whose body Flask rejects (the property raises) or for
    which [request.json] is [None] is answered 500 through the generic
    [except] clause, with the exception's message under ["error"]; for
    [None] the exception is the [AttributeError] of [None.get]. Nothing but
    two log entries is written and no collaborator is invoked. *)
Theorem recommend_without_json_body :
  forall (env : Env) (lim : option Z) (w : World) (e : Exn),
    let first := [0x1F3B5]%N ++ lit " New recommendation request received" in
    let none_error := attribute_error JNull "get" in
    let after (x : Exn) :=
      append_all env
        [ (INFO, first, None); (ERROR, exception_message x, None) ] w in
    recommend env {| request_json := Raise e; request_args_limit := lim |} w
    = (error_500 e, after e) /\
    recommend env {| request_json := Ok JNull; request_args_limit := lim |} w
    = (error_500 none_error, after none_error) /\
    chars (exc_msg none_error)
    = lit "'NoneType' object has no attribute 'get'" /\
    (forall x, status (error_500 x) = 500 /\
               body (error_500 x)
               = JObj [ (lit "error", JStr (chars (exc_msg x))) ] /\
               error_500 x <> validation_error /\
               calls (after x) = calls w).
Proof.
  intros env lim w e first none_error after.
  assert (Hraise : forall rj x,
             lift rj = (fun w0 => (@Raise json x, w0)) ->
             recommend env {| request_json := rj; request_args_limit := lim |}
               w = (error_500 x, after x)).
  { intros rj x Hrj.
    unfold recommend, try_return, recommend_try, recommend_until_tool.
    unfold bind at 1 2. run_logs.
    unfold bind at 1. unfold read_fields. unfold bind at 1.
    simpl request_json. rewrite Hrj. cbv beta iota.
    unfold exception_message. run_logs. reflexivity. }
  split; [now apply Hraise |].
  split.
  { unfold recommend, try_return, recommend_try, recommend_until_tool.
    unfold bind at 1 2. run_logs.
    unfold bind at 1. unfold read_fields. unfold bind at 1 2.
    simpl. run_logs. reflexivity. }
  split; [reflexivity |].
  intros x. split; [reflexivity |]. split; [reflexivity |].
  split; [discriminate |]. apply append_all_calls.
Qed.

(* --------------------------------------------------------------------- *)
(** *** After the tool's answer *)








Lemma recommend_after_tool env req w mem gem reas p w1 :
  recommend_until_tool env req w = (Ok (inr (mem, gem, reas, p)), w1) ->
  recommend_try env req w = recommend_respond env mem gem reas p w1.
Proof. intros H. unfold recommend_try, bind. now rewrite H. Qed.

Lemma recommend_of_try env req w r w' :
  recommend_try env req w = (Ok r, w') -> recommend env req w = (r, w').
Proof. intros H. unfold recommend, try_return. now rewrite H. Qed.






(* --------------------------------------------------------------------- *)
(** *** Failures of the tool session *)

(** C5 (as amended). [get_tools_list] and [call_tool_with_session] wrap
    nothing: when the subprocess cannot be started ([stdio_client] raises)
    or the handshake fails ([initialize] raises), [get_tools_list] raises
    that very exception, whatever its class; when the invocation fails
    ([call_tool] raises), [call_tool_with_session] raises that very
    exception. *)
Theorem session_failures_propagate :
  forall (env : Env) (w : World) (e : Exn) (name arguments : json),
    let h1 := calls w ++ [CallStdioClient] in
    let h2 := h1 ++ [CallClientSession] in
    let h3 := h2 ++ [CallInitialize] in
    (stdio_client env (calls w) = Raise e ->
       fst (run_async (get_tools_list env) w) = Raise e) /\
    (stdio_client env (calls w) = Ok tt ->
     ClientSession env h1 = Ok tt ->
     session_initialize env h2 = Raise e ->
       fst (run_async (get_tools_list env) w) = Raise e) /\
    (stdio_client env (calls w) = Ok tt ->
     ClientSession env h1 = Ok tt ->
     session_initialize env h2 = Ok tt ->
     session_call_tool env h3 name arguments = Raise e ->
       fst (run_async (call_tool_with_session env name arguments) w)
       = Raise e).
Proof.
  intros env w e name arguments h1 h2 h3. split; [| split].
  - intros H. unfold run_async, get_tools_list, bind, invoke.
    now rewrite H.
  - intros Hs Hc Hi. unfold run_async, get_tools_list, bind, invoke.
    rewrite Hs. simpl calls. fold h1. rewrite Hc. simpl calls. fold h2.
    now rewrite Hi.
  - intros Hs Hc Hi Ht.
    unfold run_async, call_tool_with_session, bind, invoke.
    rewrite Hs. simpl calls. fold h1. rewrite Hc. simpl calls. fold h2.
    rewrite Hi. simpl calls. fold h3. now rewrite Ht.
Qed.

Lemma session_failures_propagate_witness :
  let env1 :=
    demo_env_gen (Ok JNull) (Raise spawn_error) (Ok demo_decision) (Ok []) in
  let env2 := demo_env (Raise tool_error) in
  fst (run_async (get_tools_list env1) initial_world) = Raise spawn_error /\
  fst (run_async
         (call_tool_with_session env2 (JStr (lit "get_song")) (JObj []))
         initial_world) = Raise tool_error.
Proof.
  intros env1 env2. split.
  - apply (proj1 (session_failures_propagate env1 initial_world spawn_error
                    JNull JNull)).
    reflexivity.
  - apply (proj2 (proj2 (session_failures_propagate env2 initial_world
                           tool_error (JStr (lit "get_song")) (JObj []))));
      reflexivity.
Defined.

(** C5 as first stated fails: the exception that comes out of the session
    keeps its own class, here [FileNotFoundError] for a subprocess that
    cannot be started and [McpError] for a rejected invocation, neither a
    [CommunicationError] nor a [ToolInvocationError]. *)
Lemma session_error_counterexample :
  let env1 :=
    demo_env_gen (Ok JNull) (Raise spawn_error) (Ok demo_decision) (Ok []) in
  let env2 := demo_env (Raise tool_error) in
  (exists e,
      fst (run_async (get_tools_list env1) initial_world) = Raise e /\
      exc_class e = OtherError (lit "FileNotFoundError") /\
      exc_class e <> OtherError (lit "CommunicationError")) /\
  (exists e,
      fst (run_async
             (call_tool_with_session env2 (JStr (lit "get_song")) (JObj []))
             initial_world) = Raise e /\
      exc_class e = OtherError (lit "McpError") /\
      exc_class e <> OtherError (lit "ToolInvocationError")).
Proof.
  intros env1 env2. split.
  - exists spawn_error. repeat split. discriminate.
  - exists tool_error. repeat split. discriminate.
Qed.

(* --------------------------------------------------------------------- *)
(** *** The shape of every answer *)

Lemma until_tool_early_return env req w resp w' :
  recommend_until_tool env req w = (Ok (inl resp), w') ->
  resp = validation_error.
Proof.
  unfold recommend_until_tool. intros H.
  apply bind_ok_inv in H as (? & ? & _ & H).
  apply bind_ok_inv in H as ([[[mood activity] loc] tags_raw] & ? & _ & H).
  cbv beta iota in H.
  apply bind_ok_inv in H as (? & ? & _ & H).
  destruct (negb (truthy mood) || negb (truthy activity)).
  - apply bind_ok_inv in H as (? & ? & _ & H).
    unfold ret in H. congruence.
  - apply bind_ok_inv in H as (? & ? & _ & H).
    unfold ret in H. congruence.
Qed.

Lemma recommend_respond_ok env mem gem reas p w resp w' :
  recommend_respond env mem gem reas p w = (Ok resp, w') ->
  exists payload,
    resp = {| status := 200; body := success_body payload reas mem gem |}.
Proof.
  unfold recommend_respond. intros H.
  apply bind_ok_inv in H as (payload & ? & _ & H).
  apply bind_ok_inv in H as (? & ? & _ & H).
  apply bind_ok_inv in H as (? & ? & _ & H).
  unfold ret in H. exists (wrap_dict payload).
  injection H as <- _. reflexivity.
Qed.




(** Failures at other steps of the scenario, each answered 500: the memory
    store, a decision without a ["decision"] key, a tool text that parses
    to a number. *)
Example memory_failure_is_500 :
  let e := {| exc_class := OtherError (lit "IOError");
              exc_msg := txt "disk full" |} in
  fst (recommend
         (demo_env_gen (Raise e) (Ok tt) (Ok demo_decision) (Ok []))
         happy_request initial_world)
  = error_500 e.
Proof. vm_compute. reflexivity. Qed.

Example missing_decision_is_500 :
  body (fst (recommend
               (demo_env_gen (Ok JNull) (Ok tt) (Ok (JObj [])) (Ok []))
               happy_request initial_world))
  = JObj [ (lit "error", JStr (lit "'decision'")) ].
Proof. vm_compute. reflexivity. Qed.

Example number_payload_is_500 :
  fst (recommend (demo_env (Ok [TextContent (txt "5")])) happy_request
         initial_world)
  = jsonify_status
      [ (lit "error", JStr (lit "object of type 'int' has no len()")) ] 500.
Proof. vm_compute. reflexivity. Qed.

(** The specification's first scenario. *)
Example happy_scenario :
  fst (recommend (demo_env (Ok [TextContent song_list_payload]))
         happy_request initial_world)
  = {| status := 200;
       body := success_body (JArr [song_value]) (JStr (lit "upbeat mood"))
                 (JStr (lit "mem-1")) (JObj []) |}.
Proof. vm_compute. reflexivity. Qed.

(* ===================================================================== *)
(** ** More on the log buffer and its handlers *)
(* ===================================================================== *)

Lemma deque_append_ends {A : Type} (cap : nat) (x : A) (d : list A) :
  (0 < cap)%nat -> exists pre, deque_append cap x d = pre ++ [x].
Proof.
  intros Hcap. unfold deque_append.
  destruct (Nat.ltb_spec cap (length (d ++ [x]))) as [Hlt | _].
  - destruct d as [| y d'].
    + simpl in Hlt. lia.
    + exists d'. reflexivity.
  - now exists d.
Qed.

Lemma lastn_snoc {A : Type} (k : nat) (pre : list A) (x : A) :
  (1 <= k)%nat -> exists older, lastn k (pre ++ [x]) = older ++ [x].
Proof.
  intros Hk. unfold lastn. rewrite length_app. simpl length.
  rewrite skipn_app.
  replace (length pre + 1 - k - length pre)%nat with 0%nat by lia.
  now exists (skipn (length pre + 1 - k) pre).
Qed.

Lemma lastn_one_snoc {A : Type} (pre : list A) (x : A) :
  lastn 1 (pre ++ [x]) = [x].
Proof.
  unfold lastn. rewrite length_app. simpl length.
  replace (length pre + 1 - 1)%nat with (length pre + 0)%nat by lia.
  rewrite skipn_app, Nat.add_0_r, skipn_all.
  replace (length pre - length pre)%nat with 0%nat by lia.
  reflexivity.
Qed.

(** X1. What was logged last is read first from the end: right after
    [add_log], [get_logs 1] returns exactly the entry just built, and for
    every limit [n >= 1] the list [get_logs n] returns ends with it. *)
Theorem add_log_then_get_logs :
  forall (env : Env) (lvl : Level) (msg : str) (dat : option dict)
         (w : World) (n : Z),
    1 <= n ->
    let e := mk_entry env (clock_reads w) lvl msg dat in
    let w' := snd (add_log env lvl msg dat w) in
    get_logs 1 w' = (Ok [e], w') /\
    exists older, get_logs n w' = (Ok (older ++ [e]), w').
Proof.
  intros env lvl msg dat w n Hn e w'.
  destruct (deque_append_ends maxlen e (logs w)) as (pre & Hpre);
    [unfold maxlen; lia |].
  assert (Hlogs : logs w' = pre ++ [e])
    by (subst w'; now rewrite add_log_logs).
  unfold get_logs. rewrite !slice_from_neg by lia. rewrite Hlogs. split.
  - now rewrite lastn_one_snoc.
  - destruct (lastn_snoc (Z.to_nat n) pre e) as (older & Ho); [lia |].
    exists older. now rewrite Ho.
Qed.

Lemma add_log_then_get_logs_witness :
  let env := demo_env (Ok []) in
  let w := append_all env thousand_ticks initial_world in
  1 <= 1 /\
  get_logs 1 (snd (add_log env ERROR (lit "boom") None w))
  = (Ok [mk_entry env 1000 ERROR (lit "boom") None],
     snd (add_log env ERROR (lit "boom") None w)).
Proof.
  intros env w.
  assert (Hn : 1 <= 1) by lia.
  split; [exact Hn |].
  exact (proj1 (add_log_then_get_logs env ERROR (lit "boom") None w 1 Hn)).
Defined.

Lemma skipn_min {A : Type} (k : nat) (l : list A) :
  skipn (Nat.min k (length l)) l = skipn k l.
Proof.
  destruct (Nat.le_ge_cases k (length l)) as [H | H].
  - now rewrite Nat.min_l.
  - rewrite Nat.min_r by exact H. now rewrite !skipn_all2 by lia.
Qed.

(** X2. A negative limit does not count from the end: [list(logs)[-limit:]]
    is then [list(logs)[k:]] with [k = -limit], so [get_logs] drops the
    [k] oldest entries and returns all the others, however many. *)
Theorem get_logs_negative_limit :
  forall (limit : Z) (w : World),
    limit < 0 ->
    let k := Z.to_nat (- limit) in
    get_logs limit w = (Ok (skipn k (logs w)), w) /\
    length (skipn k (logs w)) = (length (logs w) - k)%nat /\
    firstn k (logs w) ++ skipn k (logs w) = logs w.
Proof.
  intros limit w Hneg k. split; [| split].
  - unfold get_logs, slice_from, clamp_index.
    destruct (Z.ltb_spec (- limit) 0) as [Hbad | _]; [lia |].
    rewrite Z2Nat.inj_min, Nat2Z.id. fold k. now rewrite skipn_min.
  - apply length_skipn.
  - apply firstn_skipn.
Qed.

Lemma get_logs_negative_limit_witness :
  let env := demo_env (Ok []) in
  let w := append_all env
             [ (INFO, lit "a", None); (INFO, lit "b", None);
               (INFO, lit "c", None) ] initial_world in
  -1 < 0 /\
  get_logs (-1) w
  = (Ok [mk_entry env 1 INFO (lit "b") None;
         mk_entry env 2 INFO (lit "c") None], w).
Proof.
  intros env w.
  assert (H : -1 < 0) by lia.
  split; [exact H |].
  exact (proj1 (get_logs_negative_limit (-1) w H)).
Defined.

(** X3. [GET /logs] cannot fail: whatever the request and the state, the
    answer is 200, the state is left as it was, the ["logs"] field lists
    entries of the buffer and ["count"] is their number. Without a [limit]
    argument these are the last 100 entries, or all when there are fewer. *)
Theorem get_logs_endpoint_answer :
  forall (req : Request) (w : World),
    exists entries,
      get_logs_endpoint req w
      = ({| status := 200;
            body := JObj [ (lit "logs", JArr (map entry_json entries));
                           (lit "count",
                            JInt (Z.of_nat (length entries))) ] |}, w) /\
      (exists older, logs w = older ++ entries) /\
      (request_args_limit req = None ->
         entries = lastn 100 (logs w) /\
         length entries = Nat.min 100 (length (logs w))).
Proof.
  intros req w.
  set (limit := match request_args_limit req with
                | Some n => n
                | None => 100
                end).
  exists (slice_from (- limit) (logs w)). split; [reflexivity |]. split.
  - exists (firstn (clamp_index (- limit) (length (logs w))) (logs w)).
    unfold slice_from. symmetry. apply firstn_skipn.
  - intros Hnone. subst limit. rewrite Hnone.
    rewrite slice_from_neg by lia. split.
    + reflexivity.
    + apply lastn_length.
Qed.

Lemma get_logs_endpoint_answer_witness :
  let env := demo_env (Ok []) in
  let w := append_all env thousand_ticks initial_world in
  let req := {| request_json := Ok JNull; request_args_limit := None |} in
  request_args_limit req = None /\
  exists entries,
    fst (get_logs_endpoint req w)
    = {| status := 200;
         body := JObj [ (lit "logs", JArr (map entry_json entries));
                        (lit "count", JInt 100) ] |}.
Proof.
  intros env w req.
  assert (Hnone : request_args_limit req = None) by reflexivity.
  split; [exact Hnone |].
  destruct (get_logs_endpoint_answer req w) as (entries & Heq & _ & Hdef).
  destruct (Hdef Hnone) as (_ & Hlen).
  exists entries. rewrite Heq. simpl fst. rewrite Hlen.
  assert (Hw : length (logs w) = 1000%nat) by (vm_compute; reflexivity).
  rewrite Hw. reflexivity.
Defined.

(** X4. [POST /logs/clear] does not leave the buffer empty: it empties it
    and then logs the clearing, so the buffer holds exactly one entry, the
    INFO entry of the clearing, whatever it held before. The answer is 200,
    the console keeps its lines and gets one more, and a [GET /logs] right
    after reports a count of 1. *)
Theorem clear_logs_leaves_one_entry :
  forall (env : Env) (w : World),
    let e := mk_entry env (clock_reads w) INFO
               ([0x1F5D1; 0xFE0F]%N ++ lit " Logs cleared") None in
    let w' := snd (clear_logs env w) in
    fst (clear_logs env w)
    = {| status := 200;
         body := JObj [ (lit "success", JBool true);
                        (lit "message", JStr (lit "Logs cleared")) ] |} /\
    logs w' = [e] /\
    stdout w' = stdout w ++ [console_line e] /\
    calls w' = calls w /\
    forall rj,
      fst (get_logs_endpoint
             {| request_json := rj; request_args_limit := None |} w')
      = {| status := 200;
           body := JObj [ (lit "logs", JArr [entry_json e]);
                          (lit "count", JInt 1) ] |}.
Proof.
  intros env w e w'.
  assert (Hrun : clear_logs env w
                 = ({| status := 200;
                       body := JObj [ (lit "success", JBool true);
                                      (lit "message",
                                       JStr (lit "Logs cleared")) ] |},
                    {| logs := [e]; stdout := stdout w ++ [console_line e];
                       clock_reads := S (clock_reads w);
                       calls := calls w |})).
  { unfold clear_logs, try_return, bind. rewrite add_log_unfold. cbv zeta.
    replace (encodable ([0x1F5D1; 0xFE0F]%N ++ lit " Logs cleared"))
      with true by reflexivity.
    reflexivity. }
  subst w'. rewrite Hrun. repeat split.
Qed.

Lemma slice_partition {A : Type} (i : Z) (l : list A) :
  slice_to i l ++ slice_from i l = l.
Proof. unfold slice_to, slice_from. apply firstn_skipn. Qed.

Lemma clamp_minus_three (n : nat) : clamp_index (-3) n = (n - 3)%nat.
Proof.
  unfold clamp_index.
  destruct (Z.ltb_spec (-3) 0) as [_ | Hbad]; lia.
Qed.


(** X5. What reaches the console: every [add_log] call stores its entry,
    and prints the line made of the entry's timestamp, level and message
    exactly when the message holds no lone surrogate; a call whose message
    holds one stores the entry, prints nothing and raises
    [UnicodeEncodeError]. So of a sequence of calls the console shows, in
    order, the lines of the entries it can take, also of entries the buffer
    has dropped since, and one line per call when it can take them all.
    The timestamp of an entry is the clock text without its last three
    characters. *)
Theorem console_receives_every_entry :
  forall (env : Env) (items : list (Level * str * option dict)) (w : World),
    let built := entries_from env (clock_reads w) items in
    let w' := append_all env items w in
    stdout w'
    = stdout w ++ map console_line
                    (filter (fun e => encodable (message e)) built) /\
    (Forall (fun e => encodable (message e) = true) built ->
       stdout w' = stdout w ++ map console_line built /\
       length (stdout w') = (length (stdout w) + length items)%nat) /\
    logs w' = push_all built (logs w) /\
    (forall lvl msg dat,
        let e := mk_entry env (clock_reads w) lvl msg dat in
        logs (snd (add_log env lvl msg dat w))
        = deque_append maxlen e (logs w) /\
        (encodable msg = true ->
           fst (add_log env lvl msg dat w) = Ok tt /\
           stdout (snd (add_log env lvl msg dat w))
           = stdout w ++ [console_line e]) /\
        (encodable msg = false ->
           fst (add_log env lvl msg dat w)
           = Raise (unicode_encode_error (console_line e)) /\
           stdout (snd (add_log env lvl msg dat w)) = stdout w)) /\
    (forall k lvl msg dat,
        exists last3,
          chars (now env k) = timestamp (mk_entry env k lvl msg dat) ++ last3 /\
          (length last3 <= 3)%nat /\
          ((3 <= length (chars (now env k)))%nat -> length last3 = 3%nat)).
Proof.
  intros env items w built w'. split; [| split; [| split; [| split]]].
  - apply append_all_console.
  - intros Hall. subst w'. rewrite append_all_console.
    fold built. rewrite (filter_all _ _ Hall). split; [reflexivity |].
    rewrite length_app, length_map.
    subst built. now rewrite entries_from_length.
  - apply append_all_logs.
  - intros lvl msg dat e. split; [apply add_log_logs |]. split.
    + intros E. split; [now rewrite add_log_ok | now apply add_log_stdout].
    + intros E. now apply add_log_raise.
  - intros k lvl msg dat. exists (slice_from (-3) (chars (now env k))).
    split; [| split].
    + simpl timestamp. symmetry. apply slice_partition.
    + unfold slice_from. rewrite length_skipn, clamp_minus_three. lia.
    + intros Hlen. unfold slice_from.
      rewrite length_skipn, clamp_minus_three. lia.
Qed.

Lemma console_receives_every_entry_witness :
  let env := demo_env (Ok []) in
  let w := append_all env [ (INFO, lit "one", None) ] initial_world in
  let bad := lit "Mood: " ++ [0xD800]%N in
  encodable bad = false /\
  length (logs (snd (add_log env INFO bad None w))) = 2%nat /\
  stdout (snd (add_log env INFO bad None w)) = stdout w /\
  chars (exc_msg (unicode_encode_error
                    (console_line (mk_entry env 1 INFO bad None))))
  = lit "'utf-8' codec can't encode character '\ud800' in position 39: surrogates not allowed".
Proof.
  intros env w bad.
  destruct (console_receives_every_entry env [] w)
    as (_ & _ & _ & Hcall & _).
  destruct (Hcall INFO bad None) as (Hlogs & _ & Hraise).
  assert (E : encodable bad = false) by reflexivity.
  split; [exact E |]. split; [rewrite Hlogs; reflexivity |].
  split; [exact (proj2 (Hraise E)) | reflexivity].
Defined.

(* ===================================================================== *)
(** ** More on the tags *)
(* ===================================================================== *)

Lemma contains_false_iff c s : contains c s = false <-> ~ In c s.
Proof.
  unfold contains. split.
  - intros H Hin.
    assert (Ht : existsb (N.eqb c) s = true).
    { apply existsb_exists. exists c. split; [exact Hin | apply N.eqb_refl]. }
    congruence.
  - intros H. destruct (existsb (N.eqb c) s) eqn:E; [| reflexivity].
    apply existsb_exists in E as (x & Hx & Heq).
    apply N.eqb_eq in Heq. subst x. contradiction.
Qed.

Lemma contains_false_forall c s :
  contains c s = false -> Forall (fun x => (x =? c)%N = false) s.
Proof.
  intros H. apply Forall_forall. intros x Hx.
  destruct (N.eqb_spec x c) as [-> | _]; [| reflexivity].
  apply contains_false_iff in H. contradiction.
Qed.

Lemma contains_strip_free c p :
  contains c p = false -> contains c (strip p) = false.
Proof.
  intros H. destruct (strip_split p) as (sp1 & sp2 & _ & _ & E).
  rewrite E, !contains_app in H.
  apply orb_false_iff in H as (_ & H).
  now apply orb_false_iff in H as (H & _).
Qed.

Lemma split_ws_chars s p x : In p (split_ws s) -> In x p -> In x s.
Proof.
  intros Hp Hx.
  assert (Hc : In x (concat (split_ws s))).
  { apply in_concat. now exists p. }
  rewrite split_ws_concat in Hc. now apply filter_In in Hc as (Hc & _).
Qed.

Lemma in_join sep ps p x : In p ps -> In x p -> In x (join sep ps).
Proof.
  induction ps as [| q qs IH]; intros Hp Hx; [contradiction Hp |].
  destruct qs as [| q' qs'].
  - destruct Hp as [-> | []]. exact Hx.
  - change (join sep (q :: q' :: qs'))
      with (q ++ sep ++ join sep (q' :: qs')).
    destruct Hp as [-> | Hp].
    + apply in_or_app. now left.
    + apply in_or_app. right. apply in_or_app. right. now apply IH.
Qed.

Lemma split_char_chars c s p x :
  In p (split_char c s) -> In x p -> In x s /\ x <> c.
Proof.
  intros Hp Hx. split.
  - rewrite <- (join_split_char c s). now apply in_join with p.
  - pose proof (split_char_free c s) as Hf.
    rewrite Forall_forall in Hf. specialize (Hf p Hp).
    apply contains_false_iff in Hf. congruence.
Qed.

Lemma tokens_of_blank_pieces ps :
  Forall blank ps -> filter truthy (map strip ps) = [].
Proof.
  induction 1 as [| p ps Hp _ IH]; simpl; [reflexivity |].
  now rewrite (strip_blank p Hp).
Qed.

Lemma parse_tags_no_comma s :
  Forall (fun t => contains comma t = false) (parse_tags s).
Proof.
  rewrite parse_tags_is_tokens. unfold tokens_spec.
  apply Forall_forall. intros t Ht.
  apply filter_In in Ht as (Hin & _).
  apply in_map_iff in Hin as (p & <- & Hp).
  apply contains_strip_free.
  destruct (contains comma s) eqn:Hc.
  - pose proof (split_char_free comma s) as Hf.
    rewrite Forall_forall in Hf. now apply Hf.
  - apply contains_false_iff. intros Hin.
    apply contains_false_iff in Hc. apply Hc.
    now apply split_ws_chars with p.
Qed.

Lemma parse_tags_blank_or_comma s : blank_or_comma s -> parse_tags s = [].
Proof.
  intros Hs. rewrite parse_tags_is_tokens. unfold tokens_spec.
  apply tokens_of_blank_pieces.
  apply Forall_forall. intros p Hp.
  apply Forall_forall. intros x Hx.
  unfold blank_or_comma in Hs. rewrite Forall_forall in Hs.
  destruct (contains comma s) eqn:Hc.
  - destruct (split_char_chars comma s p x Hp Hx) as (Hin & Hne).
    destruct (Hs x Hin) as [Hsp | Hcomma]; [exact Hsp | contradiction].
  - pose proof (split_ws_chars s p x Hp Hx) as Hin.
    destruct (Hs x Hin) as [Hsp | ->]; [exact Hsp |].
    apply contains_false_iff in Hc. contradiction.
Qed.

(** X6. No tag holds a comma, whichever way the text was cut; and a text
    made of whitespace and commas only, such as [" , ,, "], gives no tag at
    all. *)
Theorem tags_hold_no_comma :
  forall s : str,
    Forall (fun t => contains comma t = false) (parse_tags s) /\
    (blank_or_comma s -> parse_tags s = []).
Proof.
  intros s. split.
  - apply parse_tags_no_comma.
  - apply parse_tags_blank_or_comma.
Qed.

Lemma tags_hold_no_comma_witness :
  blank_or_comma (lit " , ,, ") /\ parse_tags (lit " , ,, ") = [].
Proof.
  assert (H : blank_or_comma (lit " , ,, ")).
  { unfold blank_or_comma. repeat constructor; (now left) || (now right). }
  split; [exact H |].
  exact (proj2 (tags_hold_no_comma (lit " , ,, ")) H).
Defined.

Lemma split_ws_solid t : solid t -> t <> [] -> split_ws t = [t].
Proof.
  induction 1 as [| x t Hx Ht IH]; intros Hne; [congruence |].
  destruct t as [| y t'].
  - rewrite split_ws_single, Hx. reflexivity.
  - rewrite split_ws_cons2, Hx.
    inversion Ht as [| ? ? Hy _]; subst. rewrite Hy.
    rewrite IH by discriminate. reflexivity.
Qed.

Lemma split_char_free_text c a :
  Forall (fun x => (x =? c)%N = false) a -> split_char c a = [a].
Proof.
  intros H. rewrite <- (app_nil_r a) at 1.
  rewrite split_char_prefix by exact H. simpl. now rewrite app_nil_r.
Qed.

Lemma split_char_sep c u : split_char c (c :: u) = [] :: split_char c u.
Proof. simpl. now rewrite N.eqb_refl. Qed.

Lemma tokens_of_joined sp ts :
  blank sp -> ts <> [] -> Forall tag ts ->
  filter truthy (map strip (split_char comma (sp ++ join (lit ", ") ts)))
  = ts.
Proof.
  intros Hsp Hne Hts. revert sp Hsp.
  induction Hts as [| t ts (Ht0 & Hstrip & Hfree) Hts IH]; intros sp Hsp;
    [congruence |].
  assert (Hpre : Forall (fun x => (x =? comma)%N = false) (sp ++ t)).
  { apply Forall_app. split;
      [now apply blank_no_comma | now apply contains_false_forall]. }
  assert (Hhead : strip (sp ++ t) = t) by now rewrite strip_blank_l.
  assert (Htr : truthy t = true) by now apply truthy_nonempty.
  destruct ts as [| t2 r].
  - simpl join. rewrite split_char_free_text by exact Hpre.
    simpl. now rewrite Hhead, Htr.
  - change (join (lit ", ") (t :: t2 :: r))
      with (t ++ comma :: [0x20%N] ++ join (lit ", ") (t2 :: r)).
    remember ([0x20%N] ++ join (lit ", ") (t2 :: r)) as rest eqn:Hrest.
    rewrite app_assoc, split_char_prefix by exact Hpre.
    rewrite split_char_sep, app_nil_r.
    change (filter truthy (map strip ((sp ++ t) :: split_char comma rest)))
      with (if truthy (strip (sp ++ t))
            then strip (sp ++ t)
                 :: filter truthy (map strip (split_char comma rest))
            else filter truthy (map strip (split_char comma rest))).
    rewrite Hhead, Htr. f_equal. subst rest.
    apply IH; [discriminate |]. repeat constructor.
Qed.

Lemma contains_joined t t2 r :
  contains comma (join (lit ", ") (t :: t2 :: r)) = true.
Proof.
  change (join (lit ", ") (t :: t2 :: r))
    with (t ++ comma :: [0x20%N] ++ join (lit ", ") (t2 :: r)).
  rewrite contains_app. simpl. now rewrite orb_true_r.
Qed.

Lemma parse_tags_are_tags s : Forall tag (parse_tags s).
Proof.
  pose proof (tokens_trimmed s) as H1.
  pose proof (parse_tags_no_comma s) as H2.
  rewrite <- parse_tags_is_tokens in H1.
  rewrite Forall_forall in *. intros t Ht.
  destruct (H1 t Ht) as (Hne & Hs). repeat split; auto.
Qed.

Lemma parse_joined_tags ts :
  Forall tag ts -> (2 <= length ts)%nat \/ Forall solid ts ->
  parse_tags (join (lit ", ") ts) = ts.
Proof.
  intros Hts Hshape. rewrite parse_tags_is_tokens.
  destruct ts as [| t [| t2 r]].
  - reflexivity.
  - destruct Hshape as [Hlen | Hsol]; [simpl in Hlen; lia |].
    inversion Hts as [| ? ? (Hne & _ & Hfree) _]; subst.
    inversion Hsol as [| ? ? Ht _]; subst.
    simpl join. rewrite tokens_without_comma by exact Hfree.
    now apply split_ws_solid.
  - unfold tokens_spec. rewrite contains_joined.
    apply (tokens_of_joined [] (t :: t2 :: r));
      [constructor | discriminate | exact Hts].
Qed.

(** X7. The tags survive being written out and read again: joined by
    [", "], as line 95 writes them into the memory record, a list of tags
    parses back to the same list, provided it has two tags or more, or its
    tags hold no whitespace. So the tags of any text with a second tag, or
    of any text without a comma, are a fixed point of writing and
    parsing. *)
Theorem tags_round_trip :
  forall (ts : list str) (s : str),
    (Forall tag ts -> (2 <= length ts)%nat \/ Forall solid ts ->
       parse_tags (join (lit ", ") ts) = ts) /\
    ((2 <= length (parse_tags s))%nat \/ contains comma s = false ->
       parse_tags (join (lit ", ") (parse_tags s)) = parse_tags s).
Proof.
  intros ts s. split; [apply parse_joined_tags |].
  intros Hshape. apply parse_joined_tags; [apply parse_tags_are_tags |].
  destruct Hshape as [Hlen | Hfree]; [now left | right].
  rewrite parse_tags_is_tokens, tokens_without_comma by exact Hfree.
  pose proof (split_ws_pieces s) as H.
  apply Forall_forall. intros p Hp.
  rewrite Forall_forall in H. now apply H.
Qed.

Lemma tags_round_trip_witness :
  (2 <= length (parse_tags (lit " hip hop ,rock,, ")))%nat /\
  parse_tags (lit " hip hop ,rock,, ") = [lit "hip hop"; lit "rock"] /\
  parse_tags (lit "hip hop, rock") = [lit "hip hop"; lit "rock"].
Proof.
  assert (Hlen : (2 <= length (parse_tags (lit " hip hop ,rock,, ")))%nat)
    by (vm_compute; lia).
  assert (Hval : parse_tags (lit " hip hop ,rock,, ")
                 = [lit "hip hop"; lit "rock"]) by reflexivity.
  split; [exact Hlen |]. split; [exact Hval |].
  pose proof (proj2 (tags_round_trip [] (lit " hip hop ,rock,, "))
                (or_introl Hlen)) as H.
  rewrite Hval in H. exact H.
Defined.

(** With a single tag that holds whitespace the round trip fails: the
    written text has no comma and is cut at the whitespace. *)
Example single_spaced_tag_splits :
  parse_tags (lit "hip hop,") = [lit "hip hop"] /\
  parse_tags (join (lit ", ") [lit "hip hop"]) = [lit "hip"; lit "hop"].
Proof. split; reflexivity. Qed.

(* ===================================================================== *)
(** ** More on the [/recommend] handler *)
(* ===================================================================== *)

Lemma param_details_value env items w :
  param_details env items w = (param_texts env items, w).
Proof.
  induction items as [| [param_name param_info] rest IH]; [reflexivity |].
  simpl. unfold bind, lift.
  destruct (py_get param_info (lit "type") (JStr (lit "unknown")));
    [| reflexivity].
  rewrite IH. now destruct (param_texts env rest).
Qed.

(** One turn of the loop of lines 141-160: the tool adds its line, and a
    WARNING entry when its schema could not be read. *)
Lemma describe_tools_step env i tool rest acc w :
  describe_tools env i (tool :: rest) acc w
  = describe_tools env (S i) rest (acc ++ [tool_line env i tool])
      (append_all env (tool_warnings env i [tool]) w).
Proof.
  simpl describe_tools. unfold bind at 1. unfold try_except.
  unfold bind at 1. unfold tool_line, tool_warnings, params_text.
  destruct (lookup (lit "properties") (inputSchema tool)) as [props |];
    [| reflexivity].
  unfold bind at 1. unfold lift at 1.
  destruct (py_items props) as [items | e].
  - unfold bind at 1. rewrite param_details_value.
    destruct (param_texts env items) as [details | e]; [reflexivity |].
    cbv beta iota. unfold bind at 1. fold (tool_warning_text i e).
    rewrite add_log_ok by (unfold tool_warning_text; printable).
    reflexivity.
  - cbv beta iota. unfold bind at 1. fold (tool_warning_text i e).
    rewrite add_log_ok by (unfold tool_warning_text; printable).
    reflexivity.
Qed.

Lemma tool_warnings_cons env i tool rest :
  tool_warnings env i (tool :: rest)
  = tool_warnings env i [tool] ++ tool_warnings env (S i) rest.
Proof. simpl. now destruct (params_text env tool). Qed.

Lemma append_all_app env a b w :
  append_all env (a ++ b) w = append_all env b (append_all env a w).
Proof.
  revert w. induction a as [| [[lvl msg] dat] a IH]; intros w;
    [reflexivity | apply IH].
Qed.

Lemma describe_tools_value env tools :
  forall i acc w,
    describe_tools env i tools acc w
    = (Ok (acc ++ tool_lines env i tools),
       append_all env (tool_warnings env i tools) w).
Proof.
  induction tools as [| tool rest IH]; intros i acc w.
  - simpl. now rewrite app_nil_r.
  - rewrite describe_tools_step, IH, (tool_warnings_cons env i tool rest),
      append_all_app.
    simpl tool_lines. now rewrite <- app_assoc.
Qed.

Lemma tool_lines_length env tools :
  forall i, length (tool_lines env i tools) = length tools.
Proof.
  induction tools as [| tool rest IH]; intros i; simpl;
    [reflexivity | now rewrite IH].
Qed.

Lemma tool_lines_shape env tools :
  forall i,
    Forall2
      (fun k_tool line =>
         (exists params_str,
             params_text env (snd k_tool) = Ok params_str /\
             line = of_nat (fst k_tool + 1) ++ lit ". "
                    ++ tool_name (snd k_tool) ++ lit "(" ++ params_str
                    ++ lit ") - "
                    ++ show_description (tool_description (snd k_tool))) \/
         (exists e,
             params_text env (snd k_tool) = Raise e /\
             line = of_nat (fst k_tool + 1) ++ lit ". Error processing tool"))
      (combine (seq i (length tools)) tools) (tool_lines env i tools).
Proof.
  induction tools as [| tool rest IH]; intros i; simpl; constructor;
    [| apply IH].
  unfold tool_line. simpl.
  destruct (params_text env tool) as [params_str | e];
    [left; now exists params_str | right; now exists e].
Qed.

Lemma tool_warnings_shape env tools :
  forall i,
    map (fun it => fst (fst it)) (tool_warnings env i tools)
    = repeat WARNING (length (filter (unreadable env) tools)) /\
    Forall
      (fun it => exists k e,
           (i <= k < i + length tools)%nat /\
           snd (fst it) = tool_warning_text k e)
      (tool_warnings env i tools).
Proof.
  induction tools as [| tool rest IH]; intros i; [now split |].
  destruct (IH (S i)) as (Hlev & Hmsg).
  assert (Hshift :
            Forall
              (fun it => exists k e,
                   (i <= k < i + length (tool :: rest))%nat /\
                   snd (fst it) = tool_warning_text k e)
              (tool_warnings env (S i) rest)).
  { eapply Forall_impl; [| exact Hmsg].
    intros it (k & e & Hk & Ht). exists k, e. simpl. split; [lia | exact Ht]. }
  simpl. unfold unreadable at 1.
  destruct (params_text env tool) as [params_str | e]; simpl.
  - split; [exact Hlev | exact Hshift].
  - split; [now rewrite Hlev |]. constructor; [| exact Hshift].
    exists i, e. simpl. split; [lia | reflexivity].
Qed.

(** X8. The catalogue text never makes a request fail: for any list of
    tools, the loop of lines 141-160 returns, with exactly one line per
    tool, in order, and invokes no collaborator. The line of the tool at
    index [k] is [k+1. name(parameters) - description] when its schema can
    be read, with [no parameters] when the schema has no [properties], and
    [k+1. Error processing tool] when it cannot, which is the case when
    [properties] is no mapping. The loop logs one entry per tool whose
    schema cannot be read, each a WARNING that names the tool's index and
    the exception, and nothing else. *)
Theorem describe_tools_one_line_per_tool :
  forall (env : Env) (tools : list Tool) (w : World),
    let lines := tool_lines env 0 tools in
    let warnings := tool_warnings env 0 tools in
    let w' := append_all env warnings w in
    describe_tools env 0 tools [] w = (Ok lines, w') /\
    length lines = length tools /\
    calls w' = calls w /\
    Forall2
      (fun k_tool line =>
         (exists params_str,
             params_text env (snd k_tool) = Ok params_str /\
             line = of_nat (fst k_tool + 1) ++ lit ". "
                    ++ tool_name (snd k_tool) ++ lit "(" ++ params_str
                    ++ lit ") - "
                    ++ show_description (tool_description (snd k_tool))) \/
         (exists e,
             params_text env (snd k_tool) = Raise e /\
             line = of_nat (fst k_tool + 1) ++ lit ". Error processing tool"))
      (combine (seq 0 (length tools)) tools) lines /\
    logs w' = push_all (entries_from env (clock_reads w) warnings) (logs w) /\
    map (fun it => fst (fst it)) warnings
    = repeat WARNING (length (filter (unreadable env) tools)) /\
    Forall
      (fun it => exists k e,
           (0 <= k < length tools)%nat /\
           snd (fst it) = tool_warning_text k e)
      warnings /\
    (forall tool,
        lookup (lit "properties") (inputSchema tool) = None ->
        params_text env tool = Ok (lit "no parameters")) /\
    (forall tool props,
        lookup (lit "properties") (inputSchema tool) = Some props ->
        is_dict props = false ->
        params_text env tool = Raise (attribute_error props "items")).
Proof.
  intros env tools w lines warnings w'.
  split; [apply (describe_tools_value env tools 0 [] w) |].
  split; [apply tool_lines_length |].
  split; [apply append_all_calls |].
  split; [apply tool_lines_shape |].
  split; [apply append_all_logs |].
  split; [apply tool_warnings_shape |].
  split; [apply (tool_warnings_shape env tools 0) |].
  split.
  - intros tool H. unfold params_text. now rewrite H.
  - intros tool props H Hnd. unfold params_text. rewrite H.
    now destruct props.
Qed.

Lemma describe_tools_one_line_per_tool_witness :
  let broken := {| tool_name := lit "odd"; tool_description := None;
                   inputSchema := [ (lit "properties", JInt 3) ] |} in
  let env := demo_env (Ok []) in
  lookup (lit "properties") (inputSchema broken) = Some (JInt 3) /\
  is_dict (JInt 3) = false /\
  params_text env broken = Raise (attribute_error (JInt 3) "items") /\
  tool_lines env 0 [demo_tool; broken]
  = [ lit "1. get_song(mood: string) - Pick a song";
      lit "2. Error processing tool" ].
Proof.
  intros broken env.
  assert (H1 : lookup (lit "properties") (inputSchema broken)
               = Some (JInt 3)) by reflexivity.
  assert (H2 : is_dict (JInt 3) = false) by reflexivity.
  destruct (describe_tools_one_line_per_tool env [demo_tool; broken]
              initial_world) as (_ & _ & _ & _ & _ & _ & _ & _ & Hbad).
  split; [exact H1 |]. split; [exact H2 |].
  split; [exact (Hbad broken (JInt 3) H1 H2) | reflexivity].
Defined.

(** A tool whose [properties] is not a mapping, next to a good one. *)
Example describe_tools_example :
  let broken := {| tool_name := lit "odd"; tool_description := None;
                   inputSchema := [ (lit "properties", JInt 3) ] |} in
  let env := demo_env (Ok []) in
  fst (describe_tools env 0 [demo_tool; broken] [] initial_world)
  = Ok [ lit "1. get_song(mood: string) - Pick a song";
         lit "2. Error processing tool" ] /\
  map level (logs (snd (describe_tools env 0 [demo_tool; broken] []
                          initial_world)))
  = [WARNING].
Proof. split; reflexivity. Qed.

(* --------------------------------------------------------------------- *)
(** *** The order of the steps *)

Lemma invoke_ok_inv {A : Type} c (f : list Call -> Outcome A) w a w' :
  invoke c f w = (Ok a, w') ->
  f (calls w) = Ok a /\ calls w' = calls w ++ [c].
Proof. unfold invoke. intros H. injection H as H <-. now split. Qed.

Lemma add_log_ok_inv env lvl msg dat w u w' :
  add_log env lvl msg dat w = (Ok u, w') -> calls w' = calls w.
Proof.
  intros H. rewrite <- (add_log_calls env lvl msg dat w). now rewrite H.
Qed.

Lemma lift_ok_inv {A : Type} (o : Outcome A) w a w' :
  lift o w = (Ok a, w') -> o = Ok a /\ w' = w.
Proof. unfold lift. intros H. injection H as -> <-. now split. Qed.

Lemma describe_tools_calls env i tools acc w lines w' :
  describe_tools env i tools acc w = (Ok lines, w') -> calls w' = calls w.
Proof.
  rewrite describe_tools_value. intros H. injection H as _ <-.
  apply append_all_calls.
Qed.

Ltac invert_bind H :=
  let a := fresh "a" in
  let w1 := fresh "w" in
  let Hs := fresh "Hs" in
  apply bind_ok_inv in H as (a & w1 & Hs & H); cbv beta zeta in H.

Ltac invert_steps :=
  repeat match goal with
    | H : add_log _ _ _ _ _ = (Ok _, _) |- _ => apply add_log_ok_inv in H
    | H : invoke _ _ _ = (Ok _, _) |- _ =>
        apply invoke_ok_inv in H as (? & ?)
    | H : lift _ _ = (Ok _, _) |- _ => apply lift_ok_inv in H as (? & ->)
    | H : ret _ _ = (Ok _, _) |- _ => unfold ret in H; injection H as ? ?
    end.

Ltac chase_calls :=
  repeat match goal with
    | H : calls ?x = _ |- context [calls ?x] => rewrite H; clear H
    end.

Lemma get_tools_list_ok env w tools w' :
  get_tools_list env w = (Ok tools, w') ->
  calls w' = calls w ++ session_calls CallListTools.
Proof.
  unfold get_tools_list. intros H.
  do 4 invert_bind H. invert_steps. subst.
  chase_calls. now rewrite <- !app_assoc.
Qed.

Lemma call_tool_ok env name arguments w p w' :
  call_tool_with_session env name arguments w = (Ok p, w') ->
  calls w' = calls w ++ session_calls (CallCallTool name arguments) /\
  exists content,
    session_call_tool env
      (calls w ++ [CallStdioClient; CallClientSession; CallInitialize])
      name arguments = Ok content /\
    p = first_text content.
Proof.
  unfold call_tool_with_session. intros H.
  do 4 invert_bind H. invert_steps. subst.
  match goal with
  | Hc : session_call_tool _ _ _ _ = Ok ?c |- _ =>
      split; [| exists c; split; [| reflexivity]]
  end.
  - chase_calls. now rewrite <- !app_assoc.
  - match goal with
    | Hc : session_call_tool _ ?h _ _ = Ok _ |- _ =>
        replace (calls w ++ [CallStdioClient; CallClientSession;
                             CallInitialize]) with h; [exact Hc |]
    end.
    chase_calls. now rewrite <- !app_assoc.
Qed.

Lemma memory_content_eq mood activity tags :
  lit "Mood: " ++ mood ++ lit "; Activity: " ++ activity ++ lit "; Tags: "
  ++ match tags with [] => [] | _ => join (lit ", ") tags end
  = memory_content mood activity tags.
Proof. unfold memory_content. now destruct tags. Qed.

Ltac unfold_calls :=
  repeat match goal with
    | H : calls ?x = _ |- context [calls ?x] => rewrite H
    end.

Lemma recommend_steps_trace env mood activity loc tags w mem gem reas p w' :
  recommend_steps env mood activity loc tags w
  = (Ok (mem, gem, reas, p), w') ->
  exists user_input_json tools tools_description decision inner
         name arguments content,
    let trace := full_trace mood activity loc tags user_input_json tools
                   tools_description name arguments in
    calls w' = calls w ++ trace /\
    make_decision env (calls w ++ firstn 10 trace) user_input_json
      (map tool_name tools) tools_description = Ok decision /\
    py_subscript decision "decision" = Ok inner /\
    py_subscript inner "tool_name" = Ok name /\
    py_subscript inner "arguments" = Ok arguments /\
    py_subscript inner "reasoning" = Ok reas /\
    session_call_tool env (calls w ++ firstn 14 trace) name arguments
    = Ok content /\
    p = first_text content.
Proof.
  unfold recommend_steps, run_async. intros H.
  rewrite memory_content_eq in H.
  repeat invert_bind H.
  repeat match goal with
    | Hg : get_tools_list _ _ = (Ok _, _) |- _ =>
        apply get_tools_list_ok in Hg
    | Hc : call_tool_with_session _ _ _ _ = (Ok _, _) |- _ =>
        apply call_tool_ok in Hc as (Hc & ? & ? & ?)
    | Hd : describe_tools _ _ _ _ _ = (Ok _, _) |- _ =>
        apply describe_tools_calls in Hd
    end.
  invert_steps. subst.
  repeat match goal with
    | H1 : py_subscript ?d ?k = Ok ?x, H2 : py_subscript ?d ?k = Ok ?y
      |- _ => rewrite H1 in H2; injection H2 as <-
    end.
  match goal with
  | Hd : make_decision _ ?h ?ui ?names ?desc = Ok ?d,
    Hn : py_subscript ?inner "tool_name" = Ok ?name,
    Ha : py_subscript ?inner "arguments" = Ok ?args,
    Hc : session_call_tool _ ?h2 ?name ?args = Ok ?content |- _ =>
      exists ui; eexists; exists desc, d, inner, name, args, content;
      cbv zeta;
      split; [| split; [| split; [eassumption | split; [exact Hn |
               split; [exact Ha | split; [eassumption | split;
               [| reflexivity]]]]]]]
  end.
  - unfold_calls. unfold full_trace. rewrite <- !app_assoc. reflexivity.
  - match goal with
    | Hd : make_decision _ ?h _ _ _ = Ok _ |- make_decision _ ?g _ _ _ = _ =>
        replace g with h; [exact Hd |]
    end.
    unfold_calls. unfold full_trace. rewrite <- !app_assoc. reflexivity.
  - match goal with
    | Hc : session_call_tool _ ?h _ _ = Ok _
      |- session_call_tool _ ?g _ _ = _ =>
        replace g with h; [exact Hc |]
    end.
    unfold_calls. unfold full_trace. rewrite <- !app_assoc. reflexivity.
Qed.

(** X9. A request that gets the tool's answer has invoked the collaborators
    in one fixed order, each once: memory store, perception manager, local
    perception, Gemini perception, a session that lists the tools, the
    decision maker, and a second session, with a subprocess and a handshake
    of its own, that calls the tool. The decision is the one the decision
    maker gave after the first ten invocations; the tool called is the one
    it names, with its arguments, whether or not the catalogue lists it;
    and the answer kept is the first content item of the result that very
    call returned, or the text ["[]"] when the result holds none. *)
Theorem recommend_steps_in_order :
  forall (env : Env) (mood activity loc : str) (tags : list str)
         (w w' : World) (mem gem reas : json) (p : text),
    recommend_steps env mood activity loc tags w
    = (Ok (mem, gem, reas, p), w') ->
    exists user_input_json tools tools_description decision inner
           name arguments content,
      let trace := full_trace mood activity loc tags user_input_json tools
                     tools_description name arguments in
      calls w' = calls w ++ trace /\
      make_decision env (calls w ++ firstn 10 trace) user_input_json
        (map tool_name tools) tools_description = Ok decision /\
      py_subscript decision "decision" = Ok inner /\
      py_subscript inner "tool_name" = Ok name /\
      py_subscript inner "arguments" = Ok arguments /\
      py_subscript inner "reasoning" = Ok reas /\
      session_call_tool env (calls w ++ firstn 14 trace) name arguments
      = Ok content /\
      p = first_text content /\
      (forall t rest, content = TextContent t :: rest -> p = t) /\
      (forall r rest, content = OtherContent r :: rest -> p = r) /\
      (content = [] -> chars p = lit "[]").
Proof.
  intros env mood activity loc tags w w' mem gem reas p H.
  destruct (recommend_steps_trace env mood activity loc tags w mem gem reas
              p w' H)
    as (ui & tools & desc & dec & inner & name & args & content & Hc & Hd
        & H1 & H2 & H3 & H4 & Hcall & Hp).
  exists ui, tools, desc, dec, inner, name, args, content. cbv zeta.
  repeat (split; [assumption |]).
  split; [| split]; intros; subst; reflexivity.
Qed.

Lemma recommend_steps_in_order_witness :
  let env := demo_env (Ok [TextContent song_payload;
                           TextContent (txt "more")]) in
  exists w',
    recommend_steps env (lit "happy") (lit "running") [] [lit "pop"]
      initial_world
    = (Ok (JStr (lit "mem-1"), JObj [], JStr (lit "upbeat mood"),
           song_payload),
       w') /\
    length (calls w') = 15%nat.
Proof.
  intros env.
  eexists. split; [vm_compute; reflexivity |].
  assert (Hrun :
            recommend_steps env (lit "happy") (lit "running") [] [lit "pop"]
              initial_world
            = (Ok (JStr (lit "mem-1"), JObj [], JStr (lit "upbeat mood"),
                   song_payload),
               snd (recommend_steps env (lit "happy") (lit "running") []
                      [lit "pop"] initial_world)))
    by (vm_compute; reflexivity).
  destruct (recommend_steps_in_order env _ _ _ _ _ _ _ _ _ _ Hrun)
    as (ui & tools & desc & dec & inner & name & args & content
        & Hcalls & _).
  change (length (calls (snd (recommend_steps env (lit "happy")
                               (lit "running") [] [lit "pop"]
                               initial_world))) = 15%nat).
  rewrite Hcalls. reflexivity.
Defined.

(** The decision is not checked against the catalogue: a tool the session
    did not list is called all the same. *)
Example unlisted_tool_is_called :
  let decision :=
    JObj [ (lit "decision",
            JObj [ (lit "tool_name", JStr (lit "not_listed"));
                   (lit "arguments", JObj []);
                   (lit "reasoning", JStr (lit "why not")) ]) ] in
  let env := demo_env_gen (Ok JNull) (Ok tt) (Ok decision)
               (Ok [TextContent (txt "[]")]) in
  status (fst (recommend env happy_request initial_world)) = 200 /\
  last (calls (snd (recommend env happy_request initial_world)))
    CallPerceptionManager
  = CallCallTool (JStr (lit "not_listed")) (JObj []).
Proof. split; vm_compute; reflexivity. Qed.

(* --------------------------------------------------------------------- *)
(** *** What no handler undoes *)

Lemma extends_refl w : extends w w.
Proof.
  split.
  - exists []. rewrite app_nil_r. simpl. split; [reflexivity | lia].
  - exists []. now rewrite app_nil_r.
Qed.

Lemma extends_trans w1 w2 w3 : extends w1 w2 -> extends w2 w3 -> extends w1 w3.
Proof.
  intros ((o1 & Ho1 & Hc1) & (c1 & Hk1)) ((o2 & Ho2 & Hc2) & (c2 & Hk2)).
  split.
  - exists (o1 ++ o2). rewrite Ho2, Ho1, length_app, <- app_assoc.
    split; [reflexivity | lia].
  - exists (c1 ++ c2). now rewrite Hk2, Hk1, <- app_assoc.
Qed.

Section Grows.

Variable env : Env.

Lemma grows_ret {A : Type} (a : A) : grows (ret a).
Proof. intros w. apply extends_refl. Qed.

Lemma grows_lift {A : Type} (o : Outcome A) : grows (lift o).
Proof. intros w. apply extends_refl. Qed.

Lemma grows_invoke {A : Type} c (f : list Call -> Outcome A) :
  grows (invoke c f).
Proof.
  intros w. split.
  - exists []. simpl. rewrite app_nil_r. split; [reflexivity | lia].
  - now exists [c].
Qed.

Lemma grows_add_log lvl msg dat : grows (add_log env lvl msg dat).
Proof.
  intros w. rewrite add_log_unfold. cbv zeta.
  destruct (encodable msg); split; simpl.
  - eexists [_]. simpl. split; [reflexivity | lia].
  - exists []. now rewrite app_nil_r.
  - exists []. rewrite app_nil_r. simpl. split; [reflexivity | lia].
  - exists []. now rewrite app_nil_r.
Qed.

Lemma grows_bind {A B : Type} (m : M A) (k : A -> M B) :
  grows m -> (forall a, grows (k a)) -> grows (bind m k).
Proof.
  intros Hm Hk w. unfold bind. specialize (Hm w).
  destruct (m w) as [[a | e] w1]; simpl in *.
  - apply extends_trans with w1; [exact Hm | apply Hk].
  - exact Hm.
Qed.

Lemma grows_try_except {A : Type} (m : M A) (h : Exn -> M A) :
  grows m -> (forall e, grows (h e)) -> grows (try_except m h).
Proof.
  intros Hm Hh w. unfold try_except. specialize (Hm w).
  destruct (m w) as [[a | e] w1]; simpl in *.
  - exact Hm.
  - apply extends_trans with w1; [exact Hm | apply Hh].
Qed.

Ltac growing :=
  repeat first
    [ assumption
    | apply grows_ret | apply grows_lift | apply grows_invoke
    | apply grows_add_log
    | apply grows_bind; [| intros ?]
    | apply grows_try_except; [| intros ?]
    | match goal with
      | |- grows (if ?b then _ else _) => destruct b
      | |- grows (match ?x with _ => _ end) => destruct x
      end ].

Lemma grows_param_details items : grows (param_details env items).
Proof.
  induction items as [| [param_name param_info] rest IH]; simpl; growing.
Qed.

Lemma grows_describe_tools tools :
  forall i acc, grows (describe_tools env i tools acc).
Proof.
  induction tools as [| tool rest IH]; intros i acc; simpl.
  - growing.
  - apply grows_bind; [| intros lines; apply IH].
    apply grows_try_except; [| intros e; growing].
    apply grows_bind; [| intros ?; growing].
    destruct (lookup (lit "properties") (inputSchema tool)); [| growing].
    apply grows_bind; [growing | intros items].
    apply grows_bind; [apply grows_param_details | intros ?; growing].
Qed.

Lemma grows_get_tools_list : grows (get_tools_list env).
Proof. unfold get_tools_list. growing. Qed.

Lemma grows_call_tool name arguments :
  grows (call_tool_with_session env name arguments).
Proof. unfold call_tool_with_session. growing. Qed.

Lemma grows_recommend_steps mood activity loc tags :
  grows (recommend_steps env mood activity loc tags).
Proof.
  unfold recommend_steps, run_async.
  repeat first
    [ apply grows_get_tools_list | apply grows_call_tool
    | apply grows_describe_tools
    | apply grows_ret | apply grows_lift | apply grows_invoke
    | apply grows_add_log
    | apply grows_bind; [| intros ?] ].
Qed.

Lemma grows_recommend_respond mem gem reas p :
  grows (recommend_respond env mem gem reas p).
Proof. unfold recommend_respond, parse_payload, log_payload. growing. Qed.

Lemma grows_read_fields req : grows (read_fields req).
Proof. unfold read_fields. growing. Qed.

Lemma grows_recommend_try req : grows (recommend_try env req).
Proof.
  unfold recommend_try, recommend_until_tool.
  repeat first
    [ apply grows_recommend_steps | apply grows_recommend_respond
    | apply grows_read_fields
    | apply grows_ret | apply grows_add_log
    | apply grows_bind; [| intros ?]
    | match goal with
      | |- grows (if ?b then _ else _) => destruct b
      | |- grows (match ?x with _ => _ end) => destruct x
      end ].
Qed.

Lemma recommend_extends req w : extends w (snd (recommend env req w)).
Proof.
  unfold recommend, try_return.
  pose proof (grows_recommend_try req w) as Ht.
  destruct (recommend_try env req w) as [[r | e] w1]; simpl in *.
  - exact Ht.
  - apply extends_trans with w1; [exact Ht |].
    pose proof (grows_add_log ERROR
                  ([0x274C]%N ++ lit " Exception occurred: "
                   ++ chars (exc_msg e)) None w1) as Hl.
    now destruct (add_log env ERROR _ None w1) as [[u | e'] w2].
Qed.

Lemma serves_extends w w' : serves env w w' -> extends w w'.
Proof.
  intros [req w0 | req w0 | w0].
  - apply recommend_extends.
  - apply extends_refl.
  - unfold clear_logs, try_return, bind. rewrite add_log_unfold. cbv zeta.
    replace (encodable ([0x1F5D1; 0xFE0F]%N ++ lit " Logs cleared"))
      with true by reflexivity.
    split; simpl.
    + eexists [_]. simpl. split; [reflexivity | lia].
    + exists []. now rewrite app_nil_r.
Qed.

End Grows.

(** X10. No request takes anything back from the console or from the
    collaborators: serving a request, [/logs/clear] included, only adds
    lines to the console and invocations to the trace. A request reads
    the clock at least once for every line it prints: each [add_log] call
    reads it once and prints one line, or none when the line cannot be
    encoded. *)
Theorem handlers_only_extend :
  forall (env : Env) (w w' : World),
    serves env w w' ->
    (exists out, stdout w' = stdout w ++ out /\
                 (clock_reads w + length out <= clock_reads w')%nat) /\
    (exists cs, calls w' = calls w ++ cs).
Proof.
  intros env w w' Hs. exact (serves_extends env w w' Hs).
Qed.

Lemma handlers_only_extend_witness :
  let env := demo_env (Ok []) in
  let w := snd (recommend env empty_mood_request initial_world) in
  let w' := snd (clear_logs env w) in
  serves env w w' /\
  length (logs w) = 3%nat /\ length (logs w') = 1%nat /\
  exists out, stdout w' = stdout w ++ out /\
              (clock_reads w + length out <= clock_reads w')%nat.
Proof.
  intros env w w'.
  assert (Hs : serves env w w') by apply serves_clear.
  destruct (handlers_only_extend env w w' Hs) as (Hout & _).
  split; [exact Hs |]. split; [reflexivity |]. split; [reflexivity |].
  exact Hout.
Defined.

(* --------------------------------------------------------------------- *)
(** *** Validation, exactly *)

Lemma valid_request_until_tool env d lim w :
  field_is_text d (lit "mood") = true ->
  field_is_text d (lit "activity") = true ->
  field_is_text d (lit "location") = true ->
  field_is_text d (lit "tags") = true ->
  encodable (field_text d (lit "mood")) = true ->
  encodable (field_text d (lit "activity")) = true ->
  encodable (field_text d (lit "location")) = true ->
  encodable (field_text d (lit "tags")) = true ->
  field_text d (lit "mood") <> [] ->
  field_text d (lit "activity") <> [] ->
  recommend_until_tool env
    {| request_json := Ok (JObj d); request_args_limit := lim |} w
  = (r <- recommend_steps env (field_text d (lit "mood"))
            (field_text d (lit "activity")) (field_text d (lit "location"))
            (parse_tags (field_text d (lit "tags"))) ;;
     ret (inr r))
      (append_all env
         (firstn 2
            (validation_logs (field_text d (lit "mood"))
               (field_text d (lit "activity"))
               (field_text d (lit "location"))
               (field_text d (lit "tags")))) w).
Proof.
  intros Hm Ha Hl Ht Em Ea El Et Hmood Hact.
  assert (Hvalid :
            negb (truthy (field_text d (lit "mood")))
            || negb (truthy (field_text d (lit "activity"))) = false).
  { apply truthy_nonempty in Hmood, Hact. now rewrite Hmood, Hact. }
  rewrite (until_tool_checked env d lim w Hm Ha Hl Ht Em Ea El Et).
  cbv zeta. now rewrite Hvalid.
Qed.

Lemma invalid_request_answer env d lim w :
  field_is_text d (lit "mood") = true ->
  field_is_text d (lit "activity") = true ->
  field_is_text d (lit "location") = true ->
  field_is_text d (lit "tags") = true ->
  encodable (field_text d (lit "mood")) = true ->
  encodable (field_text d (lit "activity")) = true ->
  encodable (field_text d (lit "location")) = true ->
  encodable (field_text d (lit "tags")) = true ->
  field_text d (lit "mood") = [] \/ field_text d (lit "activity") = [] ->
  fst (recommend env
         {| request_json := Ok (JObj d); request_args_limit := lim |} w)
  = validation_error.
Proof.
  intros Hm Ha Hl Ht Em Ea El Et Hempty.
  assert (Hinvalid :
            negb (truthy (field_text d (lit "mood")))
            || negb (truthy (field_text d (lit "activity"))) = true).
  { destruct Hempty as [-> | ->]; simpl; [reflexivity | apply orb_true_r]. }
  unfold recommend, try_return, recommend_try. unfold bind at 1.
  rewrite (until_tool_checked env d lim w Hm Ha Hl Ht Em Ea El Et).
  cbv zeta. rewrite Hinvalid. unfold bind at 1. run_logs. reflexivity.
Qed.

Lemma valid_request_status env d lim w :
  field_is_text d (lit "mood") = true ->
  field_is_text d (lit "activity") = true ->
  field_is_text d (lit "location") = true ->
  field_is_text d (lit "tags") = true ->
  encodable (field_text d (lit "mood")) = true ->
  encodable (field_text d (lit "activity")) = true ->
  encodable (field_text d (lit "location")) = true ->
  encodable (field_text d (lit "tags")) = true ->
  field_text d (lit "mood") <> [] ->
  field_text d (lit "activity") <> [] ->
  let r := fst (recommend env
                  {| request_json := Ok (JObj d);
                     request_args_limit := lim |} w) in
  status r = 200 \/ status r = 500.
Proof.
  intros Hm Ha Hl Ht Em Ea El Et Hmood Hact r. subst r.
  unfold recommend, try_return.
  destruct (recommend_try env _ w) as [[r | e] w'] eqn:Htry.
  - left. unfold recommend_try in Htry.
    apply bind_ok_inv in Htry as (x & w1 & Hu & Hk).
    rewrite (valid_request_until_tool env d lim w Hm Ha Hl Ht Em Ea El Et
               Hmood Hact) in Hu.
    apply bind_ok_inv in Hu as ([[[mem gem] reas] p] & w2 & _ & Hret).
    unfold ret in Hret. injection Hret as <- <-.
    apply recommend_respond_ok in Hk as (payload & ->). reflexivity.
  - right. now destruct (add_log env ERROR _ None w') as [[u | e'] w2].
Qed.

Lemma recommend_steps_memory_first env mood activity loc tags w :
  exists cs,
    calls (snd (recommend_steps env mood activity loc tags w))
    = calls w ++ CallAddMemory (memory_content mood activity tags) tags :: cs.
Proof.
  unfold recommend_steps, run_async. rewrite memory_content_eq.
  unfold bind at 1. run_logs.
  unfold bind at 1. unfold invoke at 1.
  destruct (memory_add_memory env _ _ tags) as [mem | e].
  - match goal with
    | |- exists cs, calls (snd (?m ?w4)) = _ =>
        assert (Hg : grows m)
          by (repeat first
                [ apply grows_get_tools_list | apply grows_call_tool
                | apply grows_describe_tools
                | apply grows_ret | apply grows_lift | apply grows_invoke
                | apply grows_add_log
                | apply grows_bind; [| intros ?] ]);
        destruct (Hg w4) as (_ & cs & Hcs)
    end.
    exists cs. rewrite Hcs. simpl. unfold logged.
    now rewrite add_log_calls, <- app_assoc.
  - exists []. simpl. unfold logged. now rewrite add_log_calls.
Qed.

Lemma valid_request_after_steps env d lim w :
  field_is_text d (lit "mood") = true ->
  field_is_text d (lit "activity") = true ->
  field_is_text d (lit "location") = true ->
  field_is_text d (lit "tags") = true ->
  encodable (field_text d (lit "mood")) = true ->
  encodable (field_text d (lit "activity")) = true ->
  encodable (field_text d (lit "location")) = true ->
  encodable (field_text d (lit "tags")) = true ->
  field_text d (lit "mood") <> [] ->
  field_text d (lit "activity") <> [] ->
  exists w2,
    calls w2 = calls w /\
    extends
      (snd (recommend_steps env (field_text d (lit "mood"))
              (field_text d (lit "activity")) (field_text d (lit "location"))
              (parse_tags (field_text d (lit "tags"))) w2))
      (snd (recommend env
              {| request_json := Ok (JObj d); request_args_limit := lim |}
              w)).
Proof.
  intros Hm Ha Hl Ht Em Ea El Et Hmood Hact.
  exists (append_all env
            (firstn 2
               (validation_logs (field_text d (lit "mood"))
                  (field_text d (lit "activity"))
                  (field_text d (lit "location"))
                  (field_text d (lit "tags")))) w).
  split; [apply append_all_calls |].
  unfold recommend, try_return, recommend_try. unfold bind at 1.
  rewrite (valid_request_until_tool env d lim w Hm Ha Hl Ht Em Ea El Et
             Hmood Hact).
  unfold bind at 1.
  assert (Hhandler : forall e ws,
             extends ws
               (snd (match add_log env ERROR
                             ([0x274C]%N ++ lit " Exception occurred: "
                              ++ chars (exc_msg e)) None ws with
                     | (Ok _, w') => (error_500 e, w')
                     | (Raise _, w') => (unhandled_500, w')
                     end))).
  { intros e ws.
    pose proof (grows_add_log env ERROR
                  ([0x274C]%N ++ lit " Exception occurred: "
                   ++ chars (exc_msg e)) None ws) as Hl'.
    now destruct (add_log env ERROR _ None ws) as [[u | e'] w3]. }
  match goal with
  | |- extends (snd ?x) _ =>
      destruct x as [[[[[mem gem] reas] p] | e] ws]
  end; simpl.
  - pose proof (grows_recommend_respond env mem gem reas p ws) as Hg.
    destruct (recommend_respond env mem gem reas p ws)
      as [[resp | e] w5]; simpl in *.
    + exact Hg.
    + apply extends_trans with w5; [exact Hg | apply Hhandler].
  - apply Hhandler.
Qed.

(** The line 81 prints, and what happens when it cannot be printed. *)
Lemma unprintable_request_answer env d lim w :
  field_is_text d (lit "mood") = true ->
  field_is_text d (lit "activity") = true ->
  field_is_text d (lit "location") = true ->
  field_is_text d (lit "tags") = true ->
  encodable (field_text d (lit "mood"))
  && encodable (field_text d (lit "activity"))
  && encodable (field_text d (lit "location"))
  && encodable (field_text d (lit "tags")) = false ->
  exists e,
    recommend env {| request_json := Ok (JObj d); request_args_limit := lim |}
      w
    = (error_500 e,
       append_all env
         (firstn 2
            (validation_logs (field_text d (lit "mood"))
               (field_text d (lit "activity"))
               (field_text d (lit "location"))
               (field_text d (lit "tags")))
          ++ [ (ERROR, exception_message e, None) ]) w) /\
    exc_class e = UnicodeEncodeError.
Proof.
  intros Hm Ha Hl Ht Henc.
  assert (Hmsg :
            encodable
              ([0x1F4DD]%N ++ lit " User Input - Mood: "
               ++ field_text d (lit "mood") ++ lit ", Activity: "
               ++ field_text d (lit "activity") ++ lit ", Location: "
               ++ field_text d (lit "location") ++ lit ", Tags: "
               ++ field_text d (lit "tags")) = false).
  { rewrite !encodable_app, !encodable_lit.
    change (encodable [0x1F4DD]%N) with true. rewrite !andb_true_l.
    rewrite !andb_assoc. exact Henc. }
  unfold recommend, try_return, recommend_try, recommend_until_tool.
  unfold bind at 1 2. run_logs.
  unfold bind at 1. rewrite (read_fields_text d lim _ Hm Ha Hl Ht).
  cbv beta iota. unfold bind at 1.
  match goal with
  | |- context [add_log ?env ?lvl ?msg ?dat ?w0] =>
      pose proof (add_log_raise env lvl msg dat w0 Hmsg) as (Hf & _);
      pose proof (eq_refl (logged env lvl msg dat w0)) as Hw;
      unfold logged at 1 in Hw;
      destruct (add_log env lvl msg dat w0) as [o w1]
  end.
  simpl in Hf, Hw. subst o w1. cbv beta iota.
  eexists. split; [unfold exception_message; run_logs |]; reflexivity.
Qed.

(** X11. For a body whose four fields are each absent or a string without
    a lone surrogate the check is exact: the answer is 400 if and only if
    [mood] or [activity] is absent or empty after trimming, and otherwise
    it is 200 or 500. Such a request that passes the check always reaches
    the memory store first, with the text of line 95 and the parsed tags,
    and the record is not taken back when a later step fails. When one of
    the four strings does hold a lone surrogate, line 81 raises before the
    check: the answer is the 500 of [UnicodeEncodeError], whatever [mood]
    and [activity] are, and no collaborator is invoked. *)
Theorem validation_is_exact :
  forall (env : Env) (d : dict) (lim : option Z) (w : World),
    field_is_text d (lit "mood") = true ->
    field_is_text d (lit "activity") = true ->
    field_is_text d (lit "location") = true ->
    field_is_text d (lit "tags") = true ->
    let req := {| request_json := Ok (JObj d); request_args_limit := lim |} in
    let mood := field_text d (lit "mood") in
    let activity := field_text d (lit "activity") in
    let loc := field_text d (lit "location") in
    let tags_raw := field_text d (lit "tags") in
    let tags := parse_tags tags_raw in
    (encodable mood = true -> encodable activity = true ->
     encodable loc = true -> encodable tags_raw = true ->
       (status (fst (recommend env req w)) = 400
        <-> mood = [] \/ activity = []) /\
       (mood <> [] -> activity <> [] ->
          (status (fst (recommend env req w)) = 200 \/
           status (fst (recommend env req w)) = 500) /\
          exists cs,
            calls (snd (recommend env req w))
            = calls w ++ CallAddMemory (memory_content mood activity tags) tags
                         :: cs)) /\
    (encodable mood && encodable activity && encodable loc
     && encodable tags_raw = false ->
       exists e,
         fst (recommend env req w) = error_500 e /\
         exc_class e = UnicodeEncodeError /\
         status (fst (recommend env req w)) = 500 /\
         calls (snd (recommend env req w)) = calls w).
Proof.
  intros env d lim w Hm Ha Hl Ht req mood activity loc tags_raw tags.
  split.
  - intros Em Ea El Et.
    assert (Hvalid :
              mood <> [] -> activity <> [] ->
              status (fst (recommend env req w)) = 200 \/
              status (fst (recommend env req w)) = 500).
    { intros Hmood Hact.
      exact (valid_request_status env d lim w Hm Ha Hl Ht Em Ea El Et
               Hmood Hact). }
    split; [split |].
    + intros H400.
      destruct mood as [| c m] eqn:Emood; [now left |].
      destruct activity as [| c' a] eqn:Eact; [now right |].
      destruct Hvalid as [H | H]; try discriminate; rewrite H in H400;
        discriminate H400.
    + intros Hempty. subst req.
      now rewrite (invalid_request_answer env d lim w Hm Ha Hl Ht Em Ea El Et
                     Hempty).
    + intros Hmood Hact. split; [now apply Hvalid |].
      destruct (valid_request_after_steps env d lim w Hm Ha Hl Ht Em Ea El Et
                  Hmood Hact)
        as (w2 & Hc2 & (_ & cs2 & Hext)).
      destruct (recommend_steps_memory_first env mood activity loc tags w2)
        as (cs1 & Hfirst).
      exists (cs1 ++ cs2). subst req. rewrite Hext.
      fold mood activity loc tags_raw tags.
      rewrite Hfirst, Hc2, <- app_assoc.
      reflexivity.
  - intros Henc.
    destruct (unprintable_request_answer env d lim w Hm Ha Hl Ht Henc)
      as (e & Hr & Hc).
    exists e. subst req. rewrite Hr.
    split; [reflexivity |]. split; [exact Hc |]. split; [reflexivity |].
    apply append_all_calls.
Qed.

Lemma validation_is_exact_witness :
  let d := [ (lit "mood", JStr (lit "happy"));
             (lit "activity", JStr (lit "running"));
             (lit "tags", JStr (lit "pop, upbeat")) ] in
  let bad := [ (lit "mood", JStr []);
               (lit "activity", JStr [0xD800]%N) ] in
  let env := demo_env (Raise tool_error) in
  status (fst (recommend env happy_request initial_world)) = 500 /\
  (exists cs,
      calls (snd (recommend env happy_request initial_world))
      = CallAddMemory (lit "Mood: happy; Activity: running; Tags: pop, upbeat")
          [lit "pop"; lit "upbeat"] :: cs) /\
  field_text bad (lit "mood") = [] /\
  status (fst (recommend env
                 {| request_json := Ok (JObj bad);
                    request_args_limit := None |} initial_world)) = 500.
Proof.
  intros d bad env.
  assert (Hm : field_is_text d (lit "mood") = true) by reflexivity.
  assert (Ha : field_is_text d (lit "activity") = true) by reflexivity.
  assert (Hl : field_is_text d (lit "location") = true) by reflexivity.
  assert (Ht : field_is_text d (lit "tags") = true) by reflexivity.
  assert (Em : encodable (field_text d (lit "mood")) = true) by reflexivity.
  assert (Ea : encodable (field_text d (lit "activity")) = true)
    by reflexivity.
  assert (El : encodable (field_text d (lit "location")) = true)
    by reflexivity.
  assert (Et : encodable (field_text d (lit "tags")) = true) by reflexivity.
  assert (Hmood : field_text d (lit "mood") <> []) by discriminate.
  assert (Hact : field_text d (lit "activity") <> []) by discriminate.
  destruct (validation_is_exact env d None initial_world Hm Ha Hl Ht)
    as (Hvalid & _).
  destruct (Hvalid Em Ea El Et) as (_ & Hgo).
  destruct (Hgo Hmood Hact) as (_ & cs & Hcalls).
  assert (Bm : field_is_text bad (lit "mood") = true) by reflexivity.
  assert (Ba : field_is_text bad (lit "activity") = true) by reflexivity.
  assert (Bl : field_is_text bad (lit "location") = true) by reflexivity.
  assert (Bt : field_is_text bad (lit "tags") = true) by reflexivity.
  assert (Benc : encodable (field_text bad (lit "mood"))
                 && encodable (field_text bad (lit "activity"))
                 && encodable (field_text bad (lit "location"))
                 && encodable (field_text bad (lit "tags")) = false)
    by reflexivity.
  destruct (validation_is_exact env bad None initial_world Bm Ba Bl Bt)
    as (_ & Hbad).
  destruct (Hbad Benc) as (e & _ & _ & H500 & _).
  split; [vm_compute; reflexivity |].
  split; [exists cs; exact Hcalls |].
  split; [reflexivity | exact H500].
Defined.

(** An empty mood next to a lone surrogate in [activity] is answered 500,
    not 400: line 81 prints the fields before the check of line 83. *)
Example surrogate_activity_is_500 :
  let bad := [ (lit "mood", JStr []);
               (lit "activity", JStr [0xD800]%N) ] in
  let r := fst (recommend (demo_env (Ok []))
                  {| request_json := Ok (JObj bad);
                     request_args_limit := None |} initial_world) in
  status r = 500 /\
  body r
  = JObj [ (lit "error",
            JStr (lit "'utf-8' codec can't encode character '\ud800' in position 66: surrogates not allowed")) ].
Proof. split; vm_compute; reflexivity. Qed.

(* --------------------------------------------------------------------- *)
(** *** Bodies of the wrong shape *)

Lemma read_field_non_text {B : Type} d key (k : str -> M B) :
  field_is_text d key = false ->
  exists v,
    lookup key d = Some v /\ (forall s, v <> JStr s) /\
    forall w,
      (x <- lift (py_get (JObj d) key (JStr [])) ;;
       t <- lift (py_strip x) ;; k t) w
      = (Raise (attribute_error v "strip"), w).
Proof.
  unfold field_is_text, py_get, bind, lift.
  destruct (lookup key d) as [v |]; [| discriminate].
  destruct v; intros H; try discriminate H;
    (eexists; split; [reflexivity | split; [discriminate | reflexivity]]).
Qed.

Lemma read_fields_non_text d lim :
  field_is_text d (lit "mood") && field_is_text d (lit "activity")
  && field_is_text d (lit "location") && field_is_text d (lit "tags")
  = false ->
  exists key v,
    (exists pre post,
        [lit "mood"; lit "activity"; lit "location"; lit "tags"]
        = pre ++ key :: post /\
        Forall (fun k => field_is_text d k = true) pre) /\
    field_is_text d key = false /\
    lookup key d = Some v /\ (forall s, v <> JStr s) /\
    forall w,
      read_fields {| request_json := Ok (JObj d); request_args_limit := lim |}
        w
      = (Raise (attribute_error v "strip"), w).
Proof.
  intros H.
  assert (Hstart :
            forall w,
              read_fields
                {| request_json := Ok (JObj d); request_args_limit := lim |} w
              = (mood_v <- lift (py_get (JObj d) (lit "mood") (JStr [])) ;;
                 mood <- lift (py_strip mood_v) ;;
                 activity_v <- lift (py_get (JObj d) (lit "activity")
                                       (JStr [])) ;;
                 activity <- lift (py_strip activity_v) ;;
                 location_v <- lift (py_get (JObj d) (lit "location")
                                       (JStr [])) ;;
                 current_loc <- lift (py_strip location_v) ;;
                 tags_v <- lift (py_get (JObj d) (lit "tags") (JStr [])) ;;
                 tags_raw <- lift (py_strip tags_v) ;;
                 ret (mood, activity, current_loc, tags_raw)) w)
    by reflexivity.
  destruct (field_is_text d (lit "mood")) eqn:Hm.
  - destruct (field_is_text d (lit "activity")) eqn:Ha.
    + destruct (field_is_text d (lit "location")) eqn:Hl.
      * destruct (field_is_text d (lit "tags")) eqn:Ht;
          [discriminate H |].
        destruct (read_field_non_text d (lit "tags")
                    (fun tags_raw =>
                       ret (field_text d (lit "mood"),
                            field_text d (lit "activity"),
                            field_text d (lit "location"), tags_raw)) Ht)
          as (v & Hv & Hs & Hr).
        exists (lit "tags"), v.
        split; [exists [lit "mood"; lit "activity"; lit "location"], [];
                split; [reflexivity | repeat constructor; assumption] |].
        split; [exact Ht |]. split; [exact Hv |]. split; [exact Hs |].
        intros w. rewrite Hstart.
        rewrite (read_field_text d (lit "mood")) by exact Hm.
        rewrite (read_field_text d (lit "activity")) by exact Ha.
        rewrite (read_field_text d (lit "location")) by exact Hl.
        apply Hr.
      * destruct (read_field_non_text d (lit "location")
                    (fun current_loc =>
                       tags_v <- lift (py_get (JObj d) (lit "tags")
                                         (JStr [])) ;;
                       tags_raw <- lift (py_strip tags_v) ;;
                       ret (field_text d (lit "mood"),
                            field_text d (lit "activity"),
                            current_loc, tags_raw)) Hl)
          as (v & Hv & Hs & Hr).
        exists (lit "location"), v.
        split; [exists [lit "mood"; lit "activity"], [lit "tags"];
                split; [reflexivity | repeat constructor; assumption] |].
        split; [exact Hl |]. split; [exact Hv |]. split; [exact Hs |].
        intros w. rewrite Hstart.
        rewrite (read_field_text d (lit "mood")) by exact Hm.
        rewrite (read_field_text d (lit "activity")) by exact Ha.
        apply Hr.
    + destruct (read_field_non_text d (lit "activity")
                  (fun activity =>
                     location_v <- lift (py_get (JObj d) (lit "location")
                                           (JStr [])) ;;
                     current_loc <- lift (py_strip location_v) ;;
                     tags_v <- lift (py_get (JObj d) (lit "tags")
                                       (JStr [])) ;;
                     tags_raw <- lift (py_strip tags_v) ;;
                     ret (field_text d (lit "mood"), activity,
                          current_loc, tags_raw)) Ha)
        as (v & Hv & Hs & Hr).
      exists (lit "activity"), v.
      split; [exists [lit "mood"], [lit "location"; lit "tags"];
              split; [reflexivity | repeat constructor; assumption] |].
      split; [exact Ha |]. split; [exact Hv |]. split; [exact Hs |].
      intros w. rewrite Hstart.
      rewrite (read_field_text d (lit "mood")) by exact Hm.
      apply Hr.
  - destruct (read_field_non_text d (lit "mood")
                (fun mood =>
                   activity_v <- lift (py_get (JObj d) (lit "activity")
                                         (JStr [])) ;;
                   activity <- lift (py_strip activity_v) ;;
                   location_v <- lift (py_get (JObj d) (lit "location")
                                         (JStr [])) ;;
                   current_loc <- lift (py_strip location_v) ;;
                   tags_v <- lift (py_get (JObj d) (lit "tags") (JStr [])) ;;
                   tags_raw <- lift (py_strip tags_v) ;;
                   ret (mood, activity, current_loc, tags_raw)) Hm)
      as (v & Hv & Hs & Hr).
    exists (lit "mood"), v.
    split; [exists [], [lit "activity"; lit "location"; lit "tags"];
            split; [reflexivity | constructor] |].
    split; [exact Hm |]. split; [exact Hv |]. split; [exact Hs |].
    intros w. rewrite Hstart. apply Hr.
Qed.

(** X12. A body of the wrong shape is never answered 400. When the body
    is JSON but not an object, the answer is 500 with the message of the
    [AttributeError] for [get] on a value of its type. When it is an
    object in which one of the four fields holds something other than a
    string, the answer is 500 with the message of the [AttributeError]
    for [strip] on the value of the first such field, in the order
    [mood], [activity], [location], [tags], even when [mood] or
    [activity] is empty. In both cases two entries are logged and no
    collaborator is invoked. *)
Theorem malformed_body_is_500 :
  forall (env : Env) (lim : option Z) (w : World),
    let first := [0x1F3B5]%N ++ lit " New recommendation request received" in
    let after (x : Exn) :=
      append_all env
        [ (INFO, first, None); (ERROR, exception_message x, None) ] w in
    (forall v,
        is_dict v = false ->
        recommend env {| request_json := Ok v; request_args_limit := lim |} w
        = (error_500 (attribute_error v "get"),
           after (attribute_error v "get"))) /\
    (forall d,
        field_is_text d (lit "mood") && field_is_text d (lit "activity")
        && field_is_text d (lit "location") && field_is_text d (lit "tags")
        = false ->
        exists key v,
          (exists pre post,
              [lit "mood"; lit "activity"; lit "location"; lit "tags"]
              = pre ++ key :: post /\
              Forall (fun k => field_is_text d k = true) pre) /\
          field_is_text d key = false /\
          lookup key d = Some v /\ (forall s, v <> JStr s) /\
          recommend env
            {| request_json := Ok (JObj d); request_args_limit := lim |} w
          = (error_500 (attribute_error v "strip"),
             after (attribute_error v "strip"))) /\
    (forall x, calls (after x) = calls w /\
               status (error_500 x) = 500 /\
               chars (exc_msg (attribute_error JNull "strip"))
               = lit "'NoneType' object has no attribute 'strip'").
Proof.
  intros env lim w first after.
  assert (Hraise : forall rj x,
             (forall w0, read_fields
                           {| request_json := rj; request_args_limit := lim |}
                           w0 = (Raise x, w0)) ->
             recommend env {| request_json := rj; request_args_limit := lim |}
               w = (error_500 x, after x)).
  { intros rj x Hrj.
    unfold recommend, try_return, recommend_try, recommend_until_tool.
    unfold bind at 1 2. run_logs.
    unfold bind at 1. rewrite Hrj. cbv beta iota.
    unfold exception_message. run_logs. reflexivity. }
  split; [| split].
  - intros v Hv. apply Hraise. intros w0.
    destruct v; try discriminate Hv; reflexivity.
  - intros d Hd.
    destruct (read_fields_non_text d lim Hd)
      as (key & v & Hkey & Hnt & Hv & Hs & Hr).
    exists key, v. split; [exact Hkey |]. split; [exact Hnt |].
    split; [exact Hv |]. split; [exact Hs |].
    apply Hraise. exact Hr.
  - intros x. split; [apply append_all_calls |]. split; reflexivity.
Qed.

Lemma malformed_body_is_500_witness :
  let d := [ (lit "mood", JStr []); (lit "activity", JStr (lit "running"));
             (lit "tags", JInt 5) ] in
  field_is_text d (lit "mood") && field_is_text d (lit "activity")
  && field_is_text d (lit "location") && field_is_text d (lit "tags")
  = false /\
  is_dict (JArr []) = false /\
  fst (recommend (demo_env (Ok []))
         {| request_json := Ok (JArr []); request_args_limit := None |}
         initial_world)
  = jsonify_status
      [ (lit "error", JStr (lit "'list' object has no attribute 'get'")) ]
      500 /\
  fst (recommend (demo_env (Ok []))
         {| request_json := Ok (JObj d); request_args_limit := None |}
         initial_world)
  = jsonify_status
      [ (lit "error", JStr (lit "'int' object has no attribute 'strip'")) ]
      500.
Proof.
  intros d.
  assert (Hd : field_is_text d (lit "mood") && field_is_text d (lit "activity")
               && field_is_text d (lit "location")
               && field_is_text d (lit "tags") = false) by reflexivity.
  assert (Hv : is_dict (JArr []) = false) by reflexivity.
  split; [exact Hd |]. split; [exact Hv |].
  destruct (malformed_body_is_500 (demo_env (Ok [])) None initial_world)
    as (Hshape & Hfield & _).
  rewrite (Hshape (JArr []) Hv). split; [reflexivity |].
  destruct (Hfield d Hd) as (key & v & _ & _ & _ & _ & Hr).
  vm_compute. reflexivity.
Defined.

(* --------------------------------------------------------------------- *)
(** *** Tool answers that are neither a list nor an object *)

Lemma respond_falsy env mem gem reas p v w :
  json_loads env (chars p) = Ok v -> is_dict v = false ->
  py_truthy v = false ->
  recommend_respond env mem gem reas p w
  = (Ok {| status := 200; body := success_body v reas mem gem |},
     append_all env
       [ (WARNING,
          [0x26A0; 0xFE0F]%N ++ lit " No recommendations received", None);
         (SUCCESS,
          [0x2705]%N ++ lit " Recommendation request completed successfully",
          None) ] w).
Proof.
  intros H Hd Ht.
  unfold recommend_respond, parse_payload, try_except, lift, wrap_dict,
    log_payload, bind, ret.
  rewrite H, Hd, Ht. run_logs. reflexivity.
Qed.

Lemma respond_no_len env mem gem reas p v e w :
  json_loads env (chars p) = Ok v -> py_truthy v = true ->
  py_len v = Raise e ->
  recommend_respond env mem gem reas p w = (Raise e, w).
Proof.
  intros H Ht Hl.
  assert (Hd : is_dict v = false) by (destruct v; simpl in *; congruence).
  unfold recommend_respond, parse_payload, try_except, lift, wrap_dict,
    log_payload, bind.
  rewrite H, Hd, Ht, Hl. reflexivity.
Qed.

Lemma respond_text env mem gem reas p c s w :
  json_loads env (chars p) = Ok (JStr (c :: s)) ->
  exists w',
    recommend_respond env mem gem reas p w
    = (Ok {| status := 200;
             body := success_body (JStr (c :: s)) reas mem gem |}, w').
Proof.
  intros H.
  unfold recommend_respond, parse_payload, try_except, lift, wrap_dict,
    log_payload, bind, ret.
  rewrite H. unfold lift. cbn [is_dict py_truthy truthy py_len py_first].
  change (0 <? length (c :: s))%nat with true. cbv beta iota.
  run_logs. eexists. reflexivity.
Qed.

Lemma lit_app a b : lit (a ++ b) = lit a ++ lit b.
Proof.
  unfold lit. rewrite <- map_app. f_equal.
  induction a as [| x a IH]; simpl; [reflexivity | now rewrite IH].
Qed.

Lemma py_len_message v e :
  py_len v = Raise e ->
  chars (exc_msg e)
  = lit "object of type '" ++ lit (type_name v) ++ lit "' has no len()".
Proof.
  destruct v; simpl; intros H; try discriminate H;
    injection H as <-; reflexivity.
Qed.

(** X13. The [recommendations] field is a list only when the tool's text
    parses to a list or an object. When it parses to a value that Python
    holds false ([null], [false], [0], [0.0], the empty string), the answer
    is 200 and the field is that value; when it parses to a non-empty
    string, the answer is 200 and the field is the string; when it parses
    to any other value ([true], a non-zero number), [len] raises and the
    answer is 500 with its message. *)
Theorem scalar_payloads :
  forall (env : Env) (req : Request) (w w1 : World)
         (mem gem reas : json) (p : text) (v : json),
    recommend_until_tool env req w = (Ok (inr (mem, gem, reas, p)), w1) ->
    json_loads env (chars p) = Ok v ->
    (is_dict v = false -> py_truthy v = false ->
       fst (recommend env req w)
       = {| status := 200; body := success_body v reas mem gem |}) /\
    (forall c s, v = JStr (c :: s) ->
       fst (recommend env req w)
       = {| status := 200; body := success_body v reas mem gem |}) /\
    (forall e, py_truthy v = true -> py_len v = Raise e ->
       fst (recommend env req w) = error_500 e /\
       chars (exc_msg e)
       = lit "object of type '" ++ lit (type_name v)
         ++ lit "' has no len()").
Proof.
  intros env req w w1 mem gem reas p v Hreach Hloads.
  pose proof (recommend_after_tool env req w mem gem reas p w1 Hreach)
    as Htry.
  split; [| split].
  - intros Hd Ht.
    rewrite (respond_falsy env mem gem reas p v w1 Hloads Hd Ht) in Htry.
    now rewrite (recommend_of_try _ _ _ _ _ Htry).
  - intros c s ->.
    destruct (respond_text env mem gem reas p c s w1 Hloads) as (w2 & Hr).
    rewrite Hr in Htry. now rewrite (recommend_of_try _ _ _ _ _ Htry).
  - intros e Ht Hl. split; [| now apply py_len_message].
    rewrite (respond_no_len env mem gem reas p v e w1 Hloads Ht Hl) in Htry.
    unfold recommend, try_return. rewrite Htry. run_logs. reflexivity.
Qed.

Lemma scalar_payloads_witness :
  let env := demo_env (Ok [TextContent (txt "5")]) in
  json_loads env (lit "5") = Ok (JInt 5) /\
  py_truthy (JInt 5) = true /\
  fst (recommend env happy_request initial_world)
  = jsonify_status
      [ (lit "error", JStr (lit "object of type 'int' has no len()")) ] 500.
Proof.
  intros env.
  assert (Hloads : json_loads env (lit "5") = Ok (JInt 5)) by reflexivity.
  assert (Ht : py_truthy (JInt 5) = true) by reflexivity.
  assert (Hreach :
            recommend_until_tool env happy_request initial_world
            = (Ok (inr (JStr (lit "mem-1"), JObj [],
                        JStr (lit "upbeat mood"), txt "5")),
               snd (recommend_until_tool env happy_request initial_world)))
    by (vm_compute; reflexivity).
  destruct (scalar_payloads env happy_request initial_world _ _ _ _ _ _
              Hreach Hloads) as (_ & _ & Hno_len).
  split; [exact Hloads |]. split; [exact Ht |].
  destruct (Hno_len _ Ht eq_refl) as (Hr & _). rewrite Hr. reflexivity.
Defined.

(* --------------------------------------------------------------------- *)
(** *** The last entry of the log *)

Lemma add_log_last env lvl msg dat w :
  exists older e,
    logs (snd (add_log env lvl msg dat w)) = older ++ [e] /\ level e = lvl.
Proof.
  destruct (deque_append_ends maxlen
              (mk_entry env (clock_reads w) lvl msg dat) (logs w))
    as (pre & Hpre); [unfold maxlen; lia |].
  exists pre, (mk_entry env (clock_reads w) lvl msg dat).
  split; [now rewrite add_log_logs | reflexivity].
Qed.

Lemma until_tool_early_log env req w resp w' :
  recommend_until_tool env req w = (Ok (inl resp), w') ->
  exists w0 msg, w' = snd (add_log env ERROR msg None w0).
Proof.
  unfold recommend_until_tool. intros H.
  apply bind_ok_inv in H as (? & ? & _ & H).
  apply bind_ok_inv in H as ([[[mood activity] loc] tags_raw] & ? & _ & H).
  cbv beta iota in H.
  apply bind_ok_inv in H as (? & ? & _ & H).
  destruct (negb (truthy mood) || negb (truthy activity)).
  - apply bind_ok_inv in H as (? & w1 & Hlog & H).
    unfold ret in H. injection H as _ <-.
    eexists _, _. now rewrite Hlog.
  - apply bind_ok_inv in H as (? & ? & _ & H).
    unfold ret in H. discriminate H.
Qed.

Lemma respond_ok_log env mem gem reas p w resp w' :
  recommend_respond env mem gem reas p w = (Ok resp, w') ->
  status resp = 200 /\
  exists w0 msg, w' = snd (add_log env SUCCESS msg None w0).
Proof.
  unfold recommend_respond. intros H.
  apply bind_ok_inv in H as (payload & ? & _ & H).
  apply bind_ok_inv in H as (? & ? & _ & H).
  apply bind_ok_inv in H as (? & w1 & Hlog & H).
  unfold ret in H. injection H as <- <-.
  split; [reflexivity |]. eexists _, _. now rewrite Hlog.
Qed.

Lemma recommend_last_entry env req w :
  exists older e,
    logs (snd (recommend env req w)) = older ++ [e] /\
    (status (fst (recommend env req w)) = 200 -> level e = SUCCESS) /\
    (status (fst (recommend env req w)) <> 200 -> level e = ERROR).
Proof.
  unfold recommend, try_return.
  destruct (recommend_try env req w) as [[r | x] w'] eqn:Htry.
  - unfold recommend_try in Htry.
    apply bind_ok_inv in Htry
      as ([resp | [[[mem gem] reas] p]] & w1 & Hu & Hk).
    + unfold ret in Hk. injection Hk as <- <-.
      pose proof (until_tool_early_return env req w resp w1 Hu) as ->.
      apply until_tool_early_log in Hu as (w0 & msg & ->).
      destruct (add_log_last env ERROR msg None w0) as (older & e & Hl & He).
      exists older, e. simpl. split; [exact Hl |].
      split; [discriminate | now intros _].
    + apply respond_ok_log in Hk as (Hs & w0 & msg & ->).
      destruct (add_log_last env SUCCESS msg None w0)
        as (older & e & Hl & He).
      exists older, e. simpl. split; [exact Hl |].
      split; [now intros _ | congruence].
  - destruct (add_log_last env ERROR
                ([0x274C]%N ++ lit " Exception occurred: "
                 ++ chars (exc_msg x))
                None w') as (older & e & Hl & He).
    exists older, e.
    destruct (add_log env ERROR _ None w') as [[u | e'] w2]; simpl in *;
      (split; [exact Hl |]; split; [discriminate | now intros _]).
Qed.

(** X14. The last entry of the buffer tells how the request went: after
    any [/recommend] request the buffer is not empty, and its most recent
    entry is a SUCCESS entry when the answer is 200 and an ERROR entry
    when it is 400 or 500. *)
Theorem last_entry_tells_outcome :
  forall (env : Env) (req : Request) (w : World),
    exists older e,
      logs (snd (recommend env req w)) = older ++ [e] /\
      (status (fst (recommend env req w)) = 200 -> level e = SUCCESS) /\
      (status (fst (recommend env req w)) <> 200 -> level e = ERROR) /\
      get_logs 1 (snd (recommend env req w))
      = (Ok [e], snd (recommend env req w)).
Proof.
  intros env req w.
  destruct (recommend_last_entry env req w) as (older & e & Hl & H200 & Herr).
  exists older, e. repeat split; try assumption.
  unfold get_logs. rewrite slice_from_neg by lia.
  now rewrite Hl, lastn_one_snoc.
Qed.

(* --------------------------------------------------------------------- *)
(** *** [GET /memory/recent] *)

Lemma dump_all_ok mems ds w :
  map model_dump mems = map Ok ds -> dump_all mems w = (Ok ds, w).
Proof.
  revert ds. induction mems as [| m rest IH]; intros [| d ds] H;
    try discriminate H; [reflexivity |].
  simpl in H. injection H as Hm Hrest.
  simpl. unfold bind, lift. rewrite Hm, (IH ds Hrest). reflexivity.
Qed.

Lemma dump_all_raise pre m post e w :
  Forall (fun x => exists d, model_dump x = Ok d) pre ->
  model_dump m = Raise e ->
  dump_all (pre ++ m :: post) w = (Raise e, w).
Proof.
  induction 1 as [| x pre (d & Hx) _ IH]; intros Hm; simpl.
  - unfold bind, lift. now rewrite Hm.
  - unfold bind at 1. unfold lift at 1. rewrite Hx.
    unfold bind at 1. now rewrite (IH Hm).
Qed.

(** X15. [GET /memory/recent] asks the store for [limit] records, 5 when
    the argument is absent. When the store raises, the answer is 500 with
    its message. When it returns records that all serialize, the answer
    is 200 with them under ["memories"], in the store's order; when a
    record fails to serialize, the answer is 500 with the message of the
    first that fails, and no partial list. The handler itself logs
    nothing: the state is the one the store's query left. *)
Theorem get_recent_memories_answer :
  forall (get_memories : Z -> M (list MemoryItem)) (req : Request)
         (w w1 : World),
    let limit := match request_args_limit req with
                 | Some n => n
                 | None => 5
                 end in
    (forall e,
        get_memories limit w = (Raise e, w1) ->
        get_recent_memories get_memories req w = (error_500 e, w1)) /\
    (forall mems ds,
        get_memories limit w = (Ok mems, w1) ->
        map model_dump mems = map Ok ds ->
        get_recent_memories get_memories req w
        = ({| status := 200; body := JObj [ (lit "memories", JArr ds) ] |},
           w1) /\
        length ds = length mems) /\
    (forall pre m post e,
        get_memories limit w = (Ok (pre ++ m :: post), w1) ->
        Forall (fun x => exists d, model_dump x = Ok d) pre ->
        model_dump m = Raise e ->
        get_recent_memories get_memories req w = (error_500 e, w1)).
Proof.
  intros get_memories req w w1 limit. split; [| split].
  - intros e H. unfold get_recent_memories, try_return, bind.
    fold limit. now rewrite H.
  - intros mems ds H Hd. split.
    + unfold get_recent_memories, try_return. unfold bind at 1.
      fold limit. rewrite H. unfold bind at 1.
      now rewrite (dump_all_ok mems ds w1 Hd).
    + apply (f_equal (@length _)) in Hd. now rewrite !length_map in Hd.
  - intros pre m post e H Hpre Hm.
    unfold get_recent_memories, try_return. unfold bind at 1.
    fold limit. rewrite H. unfold bind at 1.
    now rewrite (dump_all_raise pre m post e w1 Hpre Hm).
Qed.

Lemma get_recent_memories_answer_witness :
  let good := {| model_dump := Ok (JStr (lit "first")) |} in
  let bad := {| model_dump := Raise tool_error |} in
  let store (limit : Z) : M (list MemoryItem) :=
    invoke CallPerceptionManager
      (fun _ => if limit =? 5 then Ok [good; bad; good] else Ok []) in
  let req := {| request_json := Ok JNull; request_args_limit := None |} in
  fst (get_recent_memories store req initial_world) = error_500 tool_error /\
  logs (snd (get_recent_memories store req initial_world)) = [].
Proof.
  intros good bad store req.
  destruct (get_recent_memories_answer store req initial_world
              (snd (store 5 initial_world))) as (_ & _ & Hfail).
  assert (Hrun : store 5 initial_world
                 = (Ok ([good] ++ bad :: [good]),
                    snd (store 5 initial_world))) by reflexivity.
  assert (Hpre : Forall (fun x => exists d, model_dump x = Ok d) [good]).
  { repeat constructor. now exists (JStr (lit "first")). }
  rewrite (Hfail [good] bad [good] tool_error Hrun Hpre eq_refl).
  split; reflexivity.
Defined.
